(** * Latent grid CRFs (pystruct, [problems/latent_crf.py])

    A shallow embedding of [LatentCRF], [LatentGridCRF] and
    [LatentDirectionalGridCRF], and the properties of [loss],
    [loss_augment], [latent] and the inference wrappers.

    Conventions of the embedding.
    - The module is Python 2 code (no [division] import, and the tests
      round a state down with [2 * (H / 2)]): on integer arrays [/] is
      floor division, which is [Z.div] (numpy returns 0 when the
      divisor is 0, and so does [Z.div]).
    - Integer arrays ([y], [h]) are nested lists of [Z]; products are
      wrapped to 64 bits as numpy does.  Float arrays ([x], [w]) are
      nested lists of binary64 floats.
    - A Python exception is the result [None].  Between two arrays the
      shapes have to agree exactly: numpy would also stretch an axis of
      size one, which no caller in the repository relies on.  Only the
      division and product by a per-label list stretch, along the last
      axis. *)

From Stdlib Require Import Floats ZArith.
From stdpp Require Import gmap strings list.

Set Warnings "-inexact-float".

Open Scope Z_scope.

(** ** Python and numpy values *)

(** [n_states_per_label] is passed either as an int or as a list. *)
Inductive pyval :=
  | PyInt (z : Z)
  | PyList (l : list Z).

(** Python's [n * v] for an int [n]: a product of ints, or the list
    repeated [n] times (empty when [n <= 0]). *)
Definition py_mul (n : Z) (v : pyval) : pyval :=
  match v with
  | PyInt z => PyInt (n * z)
  | PyList l => PyList (mjoin (replicate (Z.to_nat n) l))
  end.

Abbreviation label_map := (list (list Z)).
Abbreviation unaries := (list (list (list float))).
Abbreviation weights := (list float).

Definition wrap64 (z : Z) : Z := (z + 2 ^ 63) `mod` 2 ^ 64 - 2 ^ 63.

(** A function applied to every element of a two-dimensional array. *)
Definition map2d {A B} (f : A → B) (a : list (list A)) : list (list B) :=
  fmap (M:=list) (fmap (M:=list) f) a.

(** Element-wise combination of two arrays of the same length. *)
Fixpoint zipM {A B C} (f : A → B → option C) (a : list A) (b : list B)
  : option (list C) :=
  match a, b with
  | [], [] => Some []
  | u :: a', v :: b' => c ← f u v; cs ← zipM f a' b'; Some (c :: cs)
  | _, _ => None
  end.

(** An array and a one-dimensional operand along the last axis. *)
Definition bcast_row (f : Z → Z → Z) (l row : list Z) : option (list Z) :=
  if decide (length row = length l) then Some (zip_with f row l)
  else match l, row with
       | [d], _ => Some ((λ v, f v d) <$> row)
       | _, [v] => Some (f v <$> l)
       | _, _ => None
       end.

(** [a / d] on an integer array. *)
Definition np_floordiv (a : label_map) (d : pyval) : option label_map :=
  match d with
  | PyInt r => Some (map2d (λ v, v / r) a)
  | PyList l => mapM (bcast_row Z.div l) a
  end.

(** [a * d] on an integer array. *)
Definition np_mul (a : label_map) (d : pyval) : option label_map :=
  match d with
  | PyInt r => Some (map2d (λ v, wrap64 (v * r)) a)
  | PyList l => mapM (bcast_row (λ u v, wrap64 (u * v)) l) a
  end.

(** [a != b] on integer arrays. *)
Definition np_not_equal (a b : label_map) : option (list (list bool)) :=
  zipM (zipM (λ u v, Some (negb (u =? v)))) a b.

(** [np.sum] of a boolean array. *)
Definition np_sum (m : list (list bool)) : Z :=
  Z.of_nat (length (filter (λ t, t = true) (mjoin m))).

(** [m.any()] of a boolean array. *)
Definition np_any2 (m : list (list bool)) : bool :=
  existsb (existsb id) m.

(** ** The models *)

Inductive base_kind := GridCRF | DirectionalGridCRF.

Record LatentCRF := mkLatentCRF {
  n_states_per_label : pyval;
  n_labels : Z;
  n_states : pyval;
  inference_method : string;
  base : base_kind
}.

(** [LatentGridCRF.__init__]; the base constructor keeps [n_states]. *)
Definition LatentGridCRF_init (n_labels : Z) (n_states_per_label : pyval)
    (inference_method : string) : LatentCRF :=
  let n_states := py_mul n_labels n_states_per_label in
  mkLatentCRF n_states_per_label n_labels n_states inference_method GridCRF.

(** [LatentDirectionalGridCRF.__init__]. *)
Definition LatentDirectionalGridCRF_init (n_labels : Z)
    (n_states_per_label : pyval) (inference_method : string) : LatentCRF :=
  let n_states := py_mul n_labels n_states_per_label in
  mkLatentCRF n_states_per_label n_labels n_states inference_method
    DirectionalGridCRF.

(** [loss], the same text in both classes. *)
Definition loss (self : LatentCRF) (h h_hat : label_map) : option Z :=
  a ← np_floordiv h (n_states_per_label self);
  b ← np_floordiv h_hat (n_states_per_label self);
  ne ← np_not_equal a b;
  Some (np_sum ne).

(** ** The Hamming distance of the specification *)

(** The visible label that owns the hidden state at node [(i, j)]. *)
Definition label_at (r : Z) (h : label_map) (i j : nat) : option Z :=
  row ← h !! i; v ← row !! j; Some (v / r).

(** Number of nodes of an [H] by [W] grid at which the owning labels
    of [h] and [h_hat] differ. *)
Definition hamming_collapsed (r : Z) (H W : nat) (h h_hat : label_map) : Z :=
  Z.of_nat (sum_list_with
    (λ i, length (filter (λ j, label_at r h i j ≠ label_at r h_hat i j)
                         (seq 0 W)))
    (seq 0 H)).

Definition shape2 {A} (H W : nat) (a : list (list A)) : Prop :=
  length a = H ∧ Forall (λ row, length row = W) a.

Definition shape3 {A} (H W K : nat) (a : list (list (list A))) : Prop :=
  length a = H ∧ Forall (shape2 W K) a.

(** The entry [a[i, j]], and the entry [a[i, j, s]]. *)
Definition get2 {A} (a : list (list A)) (i j : nat) : option A :=
  row ← a !! i; row !! j.

Definition get3 {A} (a : list (list (list A))) (i j s : nat) : option A :=
  row ← a !! i; node ← row !! j; node !! s.

(** ** Float arrays *)

Open Scope float_scope.

(** [np.sign] on a float: -1, 0 or 1, and NaN for NaN. *)
Definition np_sign (v : float) : float :=
  if v <? 0 then -1 else if 0 <? v then 1 else if v =? 0 then 0 else v.

(** [np.any(w)]: some entry is truthy, that is, not equal to zero. *)
Definition np_any (w : weights) : bool := existsb (λ v, negb (v =? 0)) w.

(** [unary_params[unary_params == 0] = 1e-10], on the local copy. *)
Definition guard_zero (unary_params : weights) : weights :=
  (λ v, if v =? 0 then 1e-10 else v) <$> unary_params.

Close Scope float_scope.

(** The slice [w[:n]] of Python: a negative [n] counts from the end. *)
Definition py_slice_to (n : Z) (w : weights) : weights :=
  if decide (n < 0) then take (length w - Z.to_nat (- n)) w
  else take (Z.to_nat n) w.

(** [np.repeat(x, reps, axis=-1)]: every entry of the last axis is
    repeated; a negative count raises, and a list gives one count per
    entry. *)
Definition repeat_each (n : nat) (feats : list float) : list float :=
  mbind (M:=list) (replicate n) feats.

Definition repeat_entries (reps : pyval) (feats : list float)
  : option (list float) :=
  match reps with
  | PyInt r =>
      if decide (r < 0) then None else Some (repeat_each (Z.to_nat r) feats)
  | PyList l =>
      if decide (Exists (λ c, c < 0) l) then None
      else match l with
           | [c] => Some (repeat_each (Z.to_nat c) feats)
           | _ => cs ← zipM (λ v c, Some (replicate (Z.to_nat c) v)) feats l;
                  Some (mjoin (M:=list) cs)
           end
  end.

Definition np_repeat_last (x : unaries) (reps : pyval) : option unaries :=
  mapM (mapM (repeat_entries reps)) x.

(** [a != c] for an integer array and an integer. *)
Definition np_not_equal_scalar (a : label_map) (c : Z) : list (list bool) :=
  map2d (λ v, negb (v =? c)) a.

(** A loop [for s in ...] whose body may raise. *)
Fixpoint for_each {S} (body : S → nat → option S) (l : list nat) (st : S)
  : option S :=
  match l with
  | [] => Some st
  | s :: l' => st' ← body st s; for_each body l' st'
  end.

(** [np.arange(n)] as indices: empty when [n <= 0]. *)
Definition np_arange (n : Z) : list nat := seq 0 (Z.to_nat n).

(** ** [LatentCRF.loss_augment] *)

(** [row[s] += v], with the bounds check of the index. *)
Definition add_at (s : nat) (v : float) (row : list float)
  : option (list float) :=
  u ← row !! s; Some (<[s := (u + v)%float]> row).

(** [x_wide[mask, s] += v]: the mask selects nodes and has the shape of
    the grid. *)
Definition add_where (mask : list (list bool)) (s : nat) (v : float)
    (x_wide : unaries) : option unaries :=
  zipM (zipM (λ (t : bool) row, if t then add_at s v row else Some row))
       mask x_wide.

(** The body of the loop over the states. *)
Definition loss_augment_step (r : Z) (h : label_map) (unary_params : weights)
    (x_wide : unaries) (s : nat) : option unaries :=
  let mask := np_not_equal_scalar (map2d (λ v, v / r) h) (Z.of_nat s / r) in
  u ← unary_params !! s;
  add_where mask s (1 / u)%float x_wide.

(** With a list in [n_states] the slice [w[:self.n_states]] raises. *)
Definition loss_augment (self : LatentCRF) (x : unaries) (h : label_map)
    (w : weights) : option unaries :=
  x_wide ← np_repeat_last x (n_states_per_label self);
  match n_states_per_label self, n_states self with
  | PyInt r, PyInt ns =>
      let unary_params := guard_zero (py_slice_to ns w) in
      for_each (loss_augment_step r h unary_params) (np_arange ns) x_wide
  | _, _ => None
  end.

(** ** [latent] *)

(** What [latent] writes to the terminal or hands to the debugger. *)
Inductive event :=
  | Print (msg : string)
  | TracerCall.

(** Modelled from the spec: [CRF.get_unary_weights] is not part of the
    sources at hand; the weight vector starts with its unary block of
    [n_states] entries, the slice that [loss_augment] takes itself. *)
Definition get_unary_weights (self : LatentCRF) (w : weights)
  : option weights :=
  match n_states self with
  | PyInt ns => Some (py_slice_to ns w)
  | PyList _ => None
  end.

(** The entry written for a forbidden state:
    [-1000 * np.sign(unary_params) * np.ones(...)]. *)
Definition forbidden_value (u : float) : float :=
  (-1000 * np_sign u * 1)%float.

(** One node of [x_wide[other_states] = (...)[other_states]]: the mask
    [np.arange(n_states) / n_states_per_label != y] has one entry per
    state, and so must the unary weights and the node's row. *)
Definition forbid_node (r ns : Z) (unary_params : weights) (yij : Z)
    (row : list float) : option (list float) :=
  su ← zipM (λ s u, Some (s, u)) (np_arange ns) unary_params;
  zipM (λ '(s, u) v,
          Some (if negb (Z.of_nat s / r =? yij) then forbidden_value u
                else v))
       su row.

Definition forbid_other_states (r ns : Z) (unary_params : weights)
    (y : label_map) (x_wide : unaries) : option unaries :=
  zipM (zipM (forbid_node r ns unary_params)) y x_wide.

(** The unary potentials that [latent] hands to the inference. *)
Definition latent_unaries (self : LatentCRF) (x : unaries) (y : label_map)
    (w : weights) : option unaries :=
  x_wide ← np_repeat_last x (n_states_per_label self);
  unary_params ← get_unary_weights self w;
  match n_states_per_label self, n_states self with
  | PyInt r, PyInt ns => forbid_other_states r ns unary_params y x_wide
  | _, _ => None
  end.

Section Latent.

(** The inference of the base class ([GridCRF.inference] or
    [DirectionalGridCRF.inference], by [base self]) with
    [relaxed=False]: an external solver that labels every node. *)
Variable base_inference : LatentCRF → unaries → weights → label_map.

(** [latent], the same text in both classes. *)
Definition latent (self : LatentCRF) (x : unaries) (y : label_map)
    (w : weights) : option (label_map * list event) :=
  x_wide ← latent_unaries self x y w;
  let h := base_inference self x_wide w in
  hl ← np_floordiv h (n_states_per_label self);
  ne ← np_not_equal hl y;
  if np_any2 ne then
    if np_any w then
      h' ← np_mul y (n_states_per_label self);
      Some (h', [Print "inconsistent h and y"; TracerCall])
    else
      h' ← np_mul y (n_states_per_label self);
      Some (h', [])
  else Some (h, []).

End Latent.

(** ** Arrays as objects: the store *)

(** The methods receive references to arrays.  The store maps a
    reference to the array it holds, so that writing through one name
    is seen through every other name of the same array. *)
Inductive ndarray :=
  | FloatArr3 (a : unaries)
  | FloatArr1 (a : weights)
  | IntArr2 (a : label_map).

Definition alloc (v : ndarray) (σ : gmap nat ndarray)
  : nat * gmap nat ndarray :=
  let l := fresh (dom σ) in (l, <[l := v]> σ).

Definition load3 (l : nat) (σ : gmap nat ndarray) : option unaries :=
  match σ !! l with Some (FloatArr3 a) => Some a | _ => None end.

Definition load1 (l : nat) (σ : gmap nat ndarray) : option weights :=
  match σ !! l with Some (FloatArr1 a) => Some a | _ => None end.

Definition load2 (l : nat) (σ : gmap nat ndarray) : option label_map :=
  match σ !! l with Some (IntArr2 a) => Some a | _ => None end.

(** The loop body of [loss_augment], writing into [x_wide] in place. *)
Definition loss_augment_step_st (r : Z) (h unary_params x_wide : nat)
    (σ : gmap nat ndarray) (s : nat) : option (gmap nat ndarray) :=
  hv ← load2 h σ;
  up ← load1 unary_params σ;
  xw ← load3 x_wide σ;
  xw' ← loss_augment_step r hv up xw s;
  Some (<[x_wide := FloatArr3 xw']> σ).

(** [loss_augment] on the store: [np.repeat] and [.copy()] allocate,
    the two assignments write in place. *)
Definition loss_augment_st (self : LatentCRF) (x h w : nat)
    (σ : gmap nat ndarray) : option (nat * gmap nat ndarray) :=
  xv ← load3 x σ;
  xw ← np_repeat_last xv (n_states_per_label self);
  let '(x_wide, σ1) := alloc (FloatArr3 xw) σ in
  match n_states_per_label self, n_states self with
  | PyInt r, PyInt ns =>
      wv ← load1 w σ1;
      let '(unary_params, σ2) := alloc (FloatArr1 (py_slice_to ns wv)) σ1 in
      up ← load1 unary_params σ2;
      let σ3 := <[unary_params := FloatArr1 (guard_zero up)]> σ2 in
      σ4 ← for_each (loss_augment_step_st r h unary_params x_wide)
                    (np_arange ns) σ3;
      Some (x_wide, σ4)
  | _, _ => None
  end.

(** [preserves_but l σ σ']: every array other than the one at [l] that
    the store [σ] holds is the same in [σ']. *)
Definition preserves_but (l : nat) (σ σ' : gmap nat ndarray) : Prop :=
  ∀ k v, k ≠ l → σ !! k = Some v → σ' !! k = Some v.

(** The contract of the base inference on the store: it may allocate,
    and it writes to no array that exists other than the unaries it is
    handed; in particular it does not write to the weights. *)
Definition writes_only_unaries
    (base_inference_st : LatentCRF → nat → nat → option bool →
                         gmap nat ndarray → option (nat * gmap nat ndarray))
  : Prop :=
  ∀ self x_wide w relaxed σ h σ',
    base_inference_st self x_wide w relaxed σ = Some (h, σ') →
    preserves_but x_wide σ σ'.

Section Store.

(** The inference of the base class on the store: it is handed the
    references of the unaries and of the weights and the [relaxed]
    flag when one is passed, and returns the reference of its
    result. *)
Variable base_inference_st :
  LatentCRF → nat → nat → option bool → gmap nat ndarray →
  option (nat * gmap nat ndarray).

(** [inference], the same text in both classes. *)
Definition inference_st (self : LatentCRF) (x w : nat)
    (σ : gmap nat ndarray) : option (nat * gmap nat ndarray) :=
  xv ← load3 x σ;
  xw ← np_repeat_last xv (n_states_per_label self);
  let '(x_wide, σ1) := alloc (FloatArr3 xw) σ in
  base_inference_st self x_wide w None σ1.

(** [loss_augmented_inference], the same text in both classes. *)
Definition loss_augmented_inference_st (self : LatentCRF) (x h w : nat)
    (relaxed : bool) (σ : gmap nat ndarray)
  : option (nat * gmap nat ndarray) :=
  '(x_wide, σ1) ← loss_augment_st self x h w σ;
  base_inference_st self x_wide w (Some relaxed) σ1.

End Store.

(** ** [kmeans_init] and [init_latent] *)

(** A Python index into an axis of length [n]: negative indices count
    from the end, anything else out of range raises. *)
Definition py_index (n : nat) (v : Z) : option nat :=
  if decide (0 ≤ v < Z.of_nat n) then Some (Z.to_nat v)
  else if decide (- Z.of_nat n ≤ v < 0) then Some (Z.to_nat (v + Z.of_nat n))
  else None.

(** [labels[gx, gy, y] = 1] on an array of zeros, reshaped to one row
    per node. *)
Definition label_indicators (n_labels : nat) (y : label_map)
  : option (list (list Z)) :=
  mapM (λ v, k ← py_index n_labels v;
             Some (<[k := 1]> (replicate n_labels 0)))
       (mjoin y).

(** [sparse.coo_matrix((np.ones(e.shape[0]), e.T), (size, size))] as a
    dense matrix: an edge outside the matrix raises, and the entries of
    a repeated edge add up. *)
Definition coo_matrix (size : nat) (e : list (Z * Z))
  : option (list (list float)) :=
  if decide (Forall (λ ab, (0 ≤ ab.1 < Z.of_nat size) ∧
                           (0 ≤ ab.2 < Z.of_nat size)) e)
  then Some (foldl (λ g ab,
                      alter (alter (λ c, (c + 1)%float) (Z.to_nat ab.2))
                            (Z.to_nat ab.1) g)
                   (replicate size (replicate size 0%float)) e)
  else None.

Definition transpose (size : nat) (g : list (list float))
  : list (list float) :=
  (λ b, (λ row, default 0%float (row !! b)) <$> g) <$> seq 0 size.

Definition matrix_add (g1 g2 : list (list float)) : list (list float) :=
  zip_with (zip_with (λ c1 c2, (c1 + c2)%float)) g1 g2.

Definition float_of_Z (z : Z) : float := PrimFloat.of_uint63 (Uint63.of_Z z).

(** The product [s * labels] of a graph and the integer indicators.
    All entries are small whole numbers, so the sums are exact in any
    order. *)
Definition matrix_product (n_labels : nat) (s : list (list float))
    (labels : list (list Z)) : list (list float) :=
  (λ row,
     (λ l : nat,
        foldl (λ acc (gl : float * list Z),
                 (acc + gl.1 * float_of_Z (default 0%Z (gl.2 !! l)))%float)
              0%float (zip row labels))
     <$> seq 0 n_labels)
  <$> s.

(** [np.hstack] of matrices with [size] rows; an empty list raises. *)
Definition np_hstack (size : nat) (ms : list (list (list float)))
  : option (list (list float)) :=
  match ms with
  | [] => None
  | _ => Some (foldr (zip_with app) (replicate size []) ms)
  end.

(** [features /= features.sum(axis=1)[:, np.newaxis]]. *)
Definition normalize_rows (features : list (list float))
  : list (list float) :=
  (λ row, let total := foldl (λ acc c, (acc + c)%float) 0%float row in
          (λ c, (c / total)%float) <$> row)
  <$> features.

(** The body of the loop over the samples: the neighbour counts of
    every node, per direction and label, normalised. *)
Definition neighbor_features (n_labels size : nat)
    (edges : list (list (Z * Z))) (symmetric : bool) (y : label_map)
  : option (list (list float)) :=
  labels ← label_indicators n_labels y;
  graphs ← mapM (coo_matrix size) edges;
  let directions :=
    if symmetric then (λ g, matrix_add g (transpose size g)) <$> graphs
    else mbind (M:=list) (λ g, [g; transpose size g]) graphs in
  features ← np_hstack size
               ((λ s, matrix_product n_labels s labels) <$> directions);
  Some (normalize_rows features).

(** [a[indicator]]: the rows selected by a boolean array of the same
    length. *)
Definition select_rows {A} (indicator : list bool) (a : list A)
  : option (list A) :=
  rows ← zipM (λ (t : bool) (row : A), Some (if t then [row] else []))
              indicator a;
  Some (mjoin (M:=list) rows).

(** [states + label * n_states_per_label]. *)
Definition state_offsets (states : list Z) (label : Z) (nspl : pyval)
  : option (list Z) :=
  match nspl with
  | PyInt r => Some ((λ s, wrap64 (s + wrap64 (label * r))) <$> states)
  | PyList l =>
      bcast_row (λ s m, wrap64 (s + m)) ((λ c, wrap64 (label * c)) <$> l)
                states
  end.

(** [H[indicator] = values] on flat arrays: one value per selected
    position. *)
Fixpoint assign_masked (indicator : list bool) (values H : list Z)
  : option (list Z) :=
  match indicator, H with
  | [], [] => match values with [] => Some [] | _ => None end
  | true :: indicator', _ :: H' =>
      match values with
      | v :: values' => H'' ← assign_masked indicator' values' H';
                        Some (v :: H'')
      | [] => None
      end
  | false :: indicator', h :: H' =>
      H'' ← assign_masked indicator' values H'; Some (h :: H'')
  | _, _ => None
  end.

(** A flat array cut into rows as long as those of [shape]. *)
Fixpoint chunk_like {A B} (shape : list (list A)) (flat : list B)
  : list (list B) :=
  match shape with
  | [] => []
  | row :: shape' =>
      take (length row) flat :: chunk_like shape' (drop (length row) flat)
  end.

(** [Y.ravel()], and a flat array reshaped to the shape of [Y]. *)
Definition ravel (Y : list label_map) : list Z :=
  mjoin (M:=list) (mjoin (M:=list) <$> Y).

Definition reshape_like (Y : list label_map) (flat : list Z)
  : list label_map :=
  zip_with chunk_like Y (chunk_like (mjoin (M:=list) <$> Y) flat).

(** [x.shape[-1]] of an array over a grid with at least one node. *)
Definition last_axis_length (x : unaries) : option nat :=
  length <$> (x !! 0%nat ≫= (.!! 0%nat)).

Section KMeans.

(** [KMeans(n_clusters).fit_predict(f)] of scikit-learn, an external
    and randomised solver: the call for label [k] is handed the number
    of clusters and the features of the nodes of that label. *)
Variable fit_predict : nat → pyval → list (list float) → option (list Z).

(** The body of the loop over the labels. *)
Definition kmeans_init_step (Yflat : list Z) (all_feats : list (list float))
    (nspl : pyval) (H : list Z) (label : nat) : option (list Z) :=
  let indicator := (λ v, v =? Z.of_nat label) <$> Yflat in
  f ← select_rows indicator all_feats;
  states ← fit_predict label nspl f;
  values ← state_offsets states (Z.of_nat label) nspl;
  assign_masked indicator values H.

(** [kmeans_init].  [Y] is an array: its samples have the shape of
    [Y[0]], and the grid has at least one node. *)
Definition kmeans_init (X : list unaries) (Y : list label_map)
    (edges : list (list (Z * Z))) (n_states_per_label : pyval)
    (symmetric : bool) : option (list label_map) :=
  x0 ← X !! 0%nat;
  n_labels ← last_axis_length x0;
  y0 ← Y !! 0%nat;
  let size := length (mjoin (M:=list) y0) in
  feats ← mapM (λ xy, neighbor_features n_labels size edges symmetric xy.2)
               (zip X Y);
  let all_feats := mjoin (M:=list) feats in
  H ← for_each (kmeans_init_step (ravel Y) all_feats n_states_per_label)
               (seq 0 n_labels) (replicate (length (ravel Y)) 0);
  Some (reshape_like Y H).

(** [make_grid_edges(X[0], neighborhood=self.neighborhood,
    return_lists=...)] is not part of the sources at hand: the edges of
    the grid as one array, or as one array per direction. *)
Variable make_grid_edges : LatentCRF → unaries → list (Z * Z).
Variable make_grid_edges_lists : LatentCRF → unaries → list (list (Z * Z)).

(** [init_latent] of [LatentGridCRF] and of
    [LatentDirectionalGridCRF]. *)
Definition init_latent (self : LatentCRF) (X : list unaries)
    (Y : list label_map) : option (list label_map) :=
  x0 ← X !! 0%nat;
  match base self with
  | GridCRF =>
      kmeans_init X Y [make_grid_edges self x0]
                  (n_states_per_label self) true
  | DirectionalGridCRF =>
      kmeans_init X Y (make_grid_edges_lists self x0)
                  (n_states_per_label self) false
  end.

End KMeans.

(** ** The perturbed initialisation of the tests *)

(** [tests/test_latent_svm.py], [test_with_crosses_bad_init]:
    [H_init[mask] = 2 * (H_init[mask] / 2)] for a random boolean [mask]
    of the shape of [H_init] (one label map per sample). *)
Definition round_masked_states (mask : list (list (list bool)))
    (H_init : list label_map) : option (list label_map) :=
  zipM (zipM (zipM (λ (m : bool) v,
                      Some (if m then wrap64 (2 * (v / 2)) else v))))
       mask H_init.

(** * Properties *)

(** ** Element-wise operations *)

Section ZipM.
Context {A B C : Type}.
Implicit Types (f : A → B → option C) (a : list A) (b : list B).

Lemma zipM_length f a b c :
  zipM f a b = Some c → length a = length b ∧ length c = length a.
Proof.
  revert b c. induction a as [|u a IH]; intros [|v b] c Hz;
    simpl in Hz; simplify_option_eq; auto.
  destruct (IH _ _ Heqo0) as [-> ->]. done.
Qed.

Lemma zipM_lookup f a b c i u v :
  zipM f a b = Some c → a !! i = Some u → b !! i = Some v →
  ∃ z, f u v = Some z ∧ c !! i = Some z.
Proof.
  revert b c i. induction a as [|u' a IH]; intros [|v' b] c i Hz Ha Hb;
    simpl in Hz; simplify_option_eq; try done.
  destruct i as [|i]; simpl in *; simplify_eq; eauto.
Qed.

Lemma zipM_is_Some f a b :
  length a = length b →
  (∀ i u v, a !! i = Some u → b !! i = Some v → is_Some (f u v)) →
  is_Some (zipM f a b).
Proof.
  revert b. induction a as [|u a IH]; intros [|v b] Hl Hf;
    simpl in *; try done.
  destruct (Hf 0%nat u v eq_refl eq_refl) as [z ->]. simpl.
  destruct (IH b) as [cs ->]; [lia| |by eexists].
  intros i u' v' Hu Hv. exact (Hf (S i) u' v' Hu Hv).
Qed.

End ZipM.

Lemma zipM_flip {A B C} (f : A → B → option C) (g : B → A → option C) a b :
  (∀ u v, f u v = g v u) → zipM f a b = zipM g b a.
Proof.
  intros Hfg. revert b. induction a as [|u a IH]; intros [|v b]; simpl; auto.
  rewrite Hfg, IH. done.
Qed.

Lemma np_not_equal_sym (a b : label_map) :
  np_not_equal a b = np_not_equal b a.
Proof.
  unfold np_not_equal. apply zipM_flip. intros u v. apply zipM_flip.
  intros z z'. by rewrite Z.eqb_sym.
Qed.

Lemma np_not_equal_refl (a : label_map) :
  ∃ m, np_not_equal a a = Some m ∧ np_sum m = 0 ∧ np_any2 m = false.
Proof.
  assert (Hrow : ∀ row : list Z, ∃ t,
    zipM (λ u v, Some (negb (u =? v))) row row = Some t ∧
    filter (λ t, t = true) t = [] ∧ existsb id t = false).
  { induction row as [|u row (t & Hz & Hf & He)]; simpl; [by eexists|].
    rewrite Hz. simpl. eexists; split; [done|]. rewrite Z.eqb_refl. simpl.
    rewrite filter_cons_False by done. done. }
  unfold np_not_equal, np_sum.
  induction a as [|row a (m & Hz & Hs & Ha)]; simpl; [by eexists|].
  destruct (Hrow row) as (t & -> & Hf & He). simpl. rewrite Hz. simpl.
  eexists; split; [done|]. simpl. rewrite filter_app, Hf, He. simpl.
  unfold np_any2 in Ha. auto.
Qed.

(** ** [loss] *)

Lemma length_filter_seq_shift (P Q : nat → Prop)
    `{!∀ j, Decision (P j), !∀ j, Decision (Q j)} k n :
  (∀ j, P (S j) ↔ Q j) →
  length (filter P (seq (S k) n)) = length (filter Q (seq k n)).
Proof.
  intros HPQ. revert k. induction n as [|n IH]; intros k; simpl; [done|].
  rewrite !filter_cons.
  destruct (decide (P (S k))) as [HP|HP], (decide (Q k)) as [HQ|HQ];
    simpl; rewrite ?IH; try done; [apply HPQ in HP|apply HPQ in HQ]; done.
Qed.

Lemma sum_list_with_seq_shift (g g' : nat → nat) k n :
  (∀ i, g (S i) = g' i) →
  sum_list_with g (seq (S k) n) = sum_list_with g' (seq k n).
Proof.
  intros Hg. revert k. induction n as [|n IH]; intros k; simpl; [done|].
  by rewrite Hg, IH.
Qed.

Lemma not_equal_row_count (r : Z) (a b : list Z) W :
  length a = W → length b = W →
  ∃ t, zipM (λ u v, Some (negb (u =? v)))
            ((λ v, v / r) <$> a) ((λ v, v / r) <$> b) = Some t ∧
       length (filter (λ t, t = true) t) =
       length (filter (λ j, (v ← a !! j; Some (v / r)) ≠
                            (v ← b !! j; Some (v / r))) (seq 0 W)).
Proof.
  revert b W. induction a as [|u a IH]; intros [|v b] [|W] Ha Hb;
    csimpl in *; try done; [by eexists|].
  destruct (IH b W) as (t & -> & Hc); [lia..|]. csimpl.
  eexists; split; [done|].
  assert (length (filter
    (λ j, (v0 ← (u :: a) !! j; Some (v0 / r)) ≠
          (v0 ← (v :: b) !! j; Some (v0 / r))) (seq 1 W)) =
    length (filter
    (λ j, (v ← a !! j; Some (v / r)) ≠ (v ← b !! j; Some (v / r)))
    (seq 0 W))) as Hs by (by apply length_filter_seq_shift).
  rewrite !filter_cons.
  destruct (Z.eqb_spec (u / r) (v / r)) as [He|He]; simpl.
  - rewrite decide_False by (rewrite He; naive_solver). by rewrite Hs.
  - rewrite decide_True by congruence. simpl. by rewrite Hs, Hc.
Qed.

Lemma not_equal_count (r : Z) (h h_hat : label_map) H W :
  shape2 H W h → shape2 H W h_hat →
  ∃ m, np_not_equal (map2d (λ v, v / r) h) (map2d (λ v, v / r) h_hat)
         = Some m ∧
       np_sum m = hamming_collapsed r H W h h_hat.
Proof.
  unfold np_not_equal, np_sum, hamming_collapsed, shape2.
  revert h_hat H. induction h as [|a h IH]; intros [|b h_hat] [|H];
    intros [Hl Hr] [Hl' Hr']; unfold map2d in *; csimpl in *; try done;
    [by eexists|].
  apply Forall_cons in Hr as [Ha Hr]. apply Forall_cons in Hr' as [Hb Hr'].
  destruct (not_equal_row_count r a b W Ha Hb) as (t & -> & Hc). csimpl.
  destruct (IH h_hat H) as (m & Hm & Hs); [split; [lia|done]..|].
  rewrite Hm. csimpl.
  eexists; split; [done|]. csimpl.
  rewrite filter_app, length_app, !Nat2Z.inj_add, Hs, Hc. f_equal.
  f_equal. symmetry. by apply sum_list_with_seq_shift.
Qed.

(** C6: for hidden label maps [h] and [h_hat] of the same shape, and a
    model whose [n_states_per_label] is an int [r], [loss] returns the
    number of nodes at which [h // r] and [h_hat // r] differ. *)
Theorem loss_is_collapsed_hamming (self : LatentCRF) (r : Z) (H W : nat)
    (h h_hat : label_map) :
  n_states_per_label self = PyInt r →
  shape2 H W h → shape2 H W h_hat →
  loss self h h_hat = Some (hamming_collapsed r H W h h_hat).
Proof.
  intros Hr Hh Hh'. unfold loss. rewrite Hr. simpl.
  destruct (not_equal_count r h h_hat H W Hh Hh') as (m & -> & <-). done.
Qed.

Lemma loss_is_collapsed_hamming_witness :
  loss (LatentGridCRF_init 2 (PyInt 2) "qpbo")
       [[0; 1]; [2; 3]] [[1; 2]; [3; 0]]
  = Some (hamming_collapsed 2 2 2 [[0; 1]; [2; 3]] [[1; 2]; [3; 0]]).
Proof.
  apply (loss_is_collapsed_hamming _ 2 2 2); [reflexivity|..];
    (split; [reflexivity|repeat constructor]).
Defined.

(** C7: [loss] does not depend on the order of its two arguments, and
    the loss of a label map against itself is 0. *)
Theorem loss_symmetric_and_zero_on_itself :
  (∀ self h h_hat, loss self h h_hat = loss self h_hat h) ∧
  (∀ r n_labels n_states method b h,
     loss (mkLatentCRF (PyInt r) n_labels n_states method b) h h = Some 0).
Proof.
  split.
  - intros self h h_hat. unfold loss.
    destruct (np_floordiv h _) as [a|], (np_floordiv h_hat _) as [b|];
      simpl; try done.
    by rewrite np_not_equal_sym.
  - intros r n_labels n_states method b h. unfold loss. simpl.
    destruct (np_not_equal_refl (map2d (λ v, v / r) h)) as (m & -> & Hm & _).
    simpl. by rewrite Hm.
Qed.

(** ** The constructor *)

(** C5: with [n_states_per_label] an int, [n_states] is the product
    [n_labels * n_states_per_label].  With the per-label list [[1, 2]]
    of the tests and two labels, [n_states] is the list repeated twice
    and not the three states of the model; [loss] raises on a grid of
    width three, counts the states 1 and 2 of label 1 as different, and
    [loss_augment] and [latent] raise on every input. *)
Theorem n_states_per_label_list_not_supported :
  (∀ n_labels r method,
     n_states (LatentGridCRF_init n_labels (PyInt r) method)
       = PyInt (n_labels * r) ∧
     n_states (LatentDirectionalGridCRF_init n_labels (PyInt r) method)
       = PyInt (n_labels * r)) ∧
  let self := LatentGridCRF_init 2 (PyList [1; 2]) "lp" in
  n_states self = PyList [1; 2; 1; 2] ∧
  n_states self ≠ PyInt 3 ∧
  loss self [[0; 1; 2]] [[0; 1; 2]] = None ∧
  loss self [[1; 0]] [[2; 0]] = Some 1 ∧
  (∀ x h w, loss_augment self x h w = None) ∧
  (∀ base_inference x y w, latent base_inference self x y w = None).
Proof.
  split; [done|]. simpl. repeat split; try done.
  - intros x h w. unfold loss_augment.
    by destruct (np_repeat_last _ _).
  - intros base_inference x y w. unfold latent, latent_unaries.
    by destruct (np_repeat_last _ _).
Qed.

(** ** Shapes and entries *)

Lemma zipM_lookup_inv {A B C} (f : A → B → option C) a b c i z :
  zipM f a b = Some c → c !! i = Some z →
  ∃ u v, a !! i = Some u ∧ b !! i = Some v ∧ f u v = Some z.
Proof.
  intros Hz Hc. destruct (zipM_length _ _ _ _ Hz) as [Hab Hca].
  pose proof (lookup_lt_Some _ _ _ Hc) as Hi.
  destruct (lookup_lt_is_Some_2 a i) as [u Hu]; [lia|].
  destruct (lookup_lt_is_Some_2 b i) as [v Hv]; [lia|].
  destruct (zipM_lookup _ _ _ _ _ _ _ Hz Hu Hv) as (z' & Hf & Hc').
  exists u, v. by simplify_eq.
Qed.

Lemma zipM_Forall {A B C} (f : A → B → option C) (P : C → Prop) a b c :
  zipM f a b = Some c →
  (∀ i u v z, a !! i = Some u → b !! i = Some v → f u v = Some z → P z) →
  Forall P c.
Proof.
  intros Hz HP. apply Forall_lookup. intros i z Hc.
  destruct (zipM_lookup_inv _ _ _ _ _ _ Hz Hc) as (u & v & Hu & Hv & Hf).
  eauto.
Qed.

Lemma shape2_lookup {A} (a : list (list A)) H W i row :
  shape2 H W a → a !! i = Some row → length row = W.
Proof.
  intros [_ Ha] Hi.
  exact (Forall_lookup_1 (λ row, length row = W) a i row Ha Hi).
Qed.

Lemma shape3_lookup {A} (a : list (list (list A))) H W K i row :
  shape3 H W K a → a !! i = Some row → shape2 W K row.
Proof.
  intros [_ Ha] Hi. exact (Forall_lookup_1 (shape2 W K) a i row Ha Hi).
Qed.

Lemma get2_is_Some {A} (a : list (list A)) H W i j :
  shape2 H W a → (i < H)%nat → (j < W)%nat → is_Some (get2 a i j).
Proof.
  intros Ha Hi Hj. unfold get2.
  destruct (lookup_lt_is_Some_2 a i) as [row Hrow]; [destruct Ha; lia|].
  rewrite Hrow. simpl. apply lookup_lt_is_Some_2.
  by rewrite (shape2_lookup _ _ _ _ _ Ha Hrow).
Qed.

Lemma get3_is_Some {A} (a : list (list (list A))) H W K i j s :
  shape3 H W K a → (i < H)%nat → (j < W)%nat → (s < K)%nat →
  is_Some (get3 a i j s).
Proof.
  intros Ha Hi Hj Hs. unfold get3.
  destruct (lookup_lt_is_Some_2 a i) as [row Hrow]; [destruct Ha; lia|].
  rewrite Hrow. simpl.
  exact (get2_is_Some _ _ _ _ _ (shape3_lookup _ _ _ _ _ _ Ha Hrow) Hj Hs).
Qed.

(** ** [np.repeat] along the last axis *)

Lemma mapM_total {A B} (g : A → B) (f : A → option B) (l : list A) :
  (∀ x, f x = Some (g x)) → mapM f l = Some (g <$> l).
Proof.
  intros Hf. apply mapM_Some. induction l; csimpl; constructor; auto.
Qed.

Lemma np_repeat_last_int (x : unaries) (r : Z) :
  0 ≤ r →
  np_repeat_last x (PyInt r) = Some (map2d (repeat_each (Z.to_nat r)) x).
Proof.
  intros Hr. unfold np_repeat_last, map2d.
  apply mapM_total. intros row. apply mapM_total. intros feats.
  simpl. by rewrite decide_False by lia.
Qed.

Lemma length_repeat_each n feats :
  length (repeat_each n feats) = (length feats * n)%nat.
Proof.
  unfold repeat_each. induction feats as [|v feats IH]; csimpl; [done|].
  rewrite length_app, length_replicate, IH. lia.
Qed.

Lemma lookup_repeat_each n feats s :
  (0 < n)%nat → repeat_each n feats !! s = feats !! (s / n)%nat.
Proof.
  intros Hn. unfold repeat_each. revert s.
  induction feats as [|v feats IH]; intros s; csimpl; [done|].
  destruct (decide (s < n)%nat) as [Hs|Hs].
  - rewrite lookup_app_l by (by rewrite length_replicate).
    rewrite lookup_replicate_2 by done. by rewrite Nat.div_small.
  - rewrite lookup_app_r by (rewrite length_replicate; lia).
    rewrite length_replicate, IH.
    replace (s / n)%nat with (S ((s - n) / n)); [done|].
    replace s with ((s - n) + 1 * n)%nat at 2 by lia.
    rewrite Nat.div_add by lia. lia.
Qed.

(** ** Element-wise operations on grids *)

Lemma zipM2_spec {A B C} (f : A → B → option C)
    (a : list (list A)) (b : list (list B)) H W :
  shape2 H W a → shape2 H W b →
  (∀ i j u v, get2 a i j = Some u → get2 b i j = Some v → is_Some (f u v)) →
  ∃ c, zipM (zipM f) a b = Some c ∧ shape2 H W c ∧
       ∀ i j u v, get2 a i j = Some u → get2 b i j = Some v →
                  ∃ z, f u v = Some z ∧ get2 c i j = Some z.
Proof.
  intros Ha Hb Hf.
  destruct (zipM_is_Some (zipM f) a b) as [c Hc].
  { destruct Ha, Hb. lia. }
  { intros i ra rb Hra Hrb. apply zipM_is_Some.
    - rewrite (shape2_lookup _ _ _ _ _ Ha Hra).
      by rewrite (shape2_lookup _ _ _ _ _ Hb Hrb).
    - intros j u v Hu Hv. apply (Hf i j); unfold get2.
      + by rewrite Hra.
      + by rewrite Hrb. }
  exists c. split; [done|]. split.
  - split.
    + destruct (zipM_length _ _ _ _ Hc) as [_ ->]. by destruct Ha.
    + eapply zipM_Forall; [exact Hc|]. intros i ra rb rc Hra Hrb Hrc.
      destruct (zipM_length _ _ _ _ Hrc) as [_ ->].
      exact (shape2_lookup _ _ _ _ _ Ha Hra).
  - intros i j u v Hu Hv. unfold get2 in *.
    destruct (a !! i) as [ra|] eqn:Hra; [|done].
    destruct (b !! i) as [rb|] eqn:Hrb; [|done]. simpl in *.
    destruct (zipM_lookup _ _ _ _ _ _ _ Hc Hra Hrb) as (rc & Hrc & ->).
    simpl. exact (zipM_lookup _ _ _ _ _ _ _ Hrc Hu Hv).
Qed.

Lemma shape2_map2d {A B} (f : A → B) (a : list (list A)) H W :
  shape2 H W a → shape2 H W (map2d f a).
Proof.
  intros [Hl Hr]. unfold map2d. split; [by rewrite length_fmap|].
  apply Forall_fmap. eapply Forall_impl; [exact Hr|].
  intros row Hrow. simpl. by rewrite length_fmap.
Qed.

Lemma get2_map2d {A B} (f : A → B) (a : list (list A)) i j :
  get2 (map2d f a) i j = f <$> get2 a i j.
Proof.
  unfold get2, map2d. rewrite list_lookup_fmap.
  destruct (a !! i) as [row|]; [|done]. simpl. apply list_lookup_fmap.
Qed.

Lemma map2d_compose {A B C} (f : A → B) (g : B → C) (a : list (list A)) :
  map2d g (map2d f a) = map2d (g ∘ f) a.
Proof.
  unfold map2d. rewrite <-list_fmap_compose. apply list_fmap_ext.
  intros i row _. simpl. by rewrite <-list_fmap_compose.
Qed.

Lemma map2d_id_on (g : Z → Z) (y : label_map) :
  Forall (Forall (λ v, g v = v)) y → map2d g y = y.
Proof.
  intros Hy. unfold map2d. induction Hy as [|row y Hrow _ IH]; csimpl; [done|].
  f_equal; [|done]. clear IH.
  induction Hrow as [|v row Hv _ IH]; csimpl; [done|]. by rewrite Hv, IH.
Qed.

Lemma np_not_equal_any_false (a b : label_map) ne :
  np_not_equal a b = Some ne → np_any2 ne = false → a = b.
Proof.
  assert (Hrow : ∀ (ra rb : list Z) t,
    zipM (λ u v, Some (negb (u =? v))) ra rb = Some t →
    existsb id t = false → ra = rb).
  { induction ra as [|u ra IH]; intros [|v rb] t Hz Ht;
      simpl in Hz; simplify_option_eq; try done.
    simpl in Ht. apply orb_false_iff in Ht as [Huv Ht].
    apply negb_false_iff, Z.eqb_eq in Huv. subst. f_equal. eauto. }
  unfold np_not_equal, np_any2. revert b ne.
  induction a as [|ra a IH]; intros [|rb b] ne Hz Hne;
    simpl in Hz; simplify_option_eq; try done.
  simpl in Hne. apply orb_false_iff in Hne as [Ht Hne].
  f_equal; eauto.
Qed.

Lemma np_not_equal_any_true (a b : label_map) ne :
  np_not_equal a b = Some ne → a ≠ b → np_any2 ne = true.
Proof.
  intros Hz Hab. destruct (np_any2 ne) eqn:Hne; [done|].
  destruct Hab. by eapply np_not_equal_any_false.
Qed.

Lemma np_not_equal_total (a b : label_map) H W :
  shape2 H W a → shape2 H W b → is_Some (np_not_equal a b).
Proof.
  intros Ha Hb.
  destruct (zipM2_spec (λ u v, Some (negb (u =? v))) a b H W Ha Hb)
    as (c & Hc & _); [by eauto|].
  by exists c.
Qed.

Lemma wrap64_small z : - 2 ^ 63 ≤ z < 2 ^ 63 → wrap64 z = z.
Proof. intros Hz. unfold wrap64. rewrite Z.mod_small; lia. Qed.

(** ** [latent]: the forbidden states *)

Lemma forbid_node_spec (r ns : Z) (u : weights) (yij : Z) (row : list float) :
  length u = Z.to_nat ns → length row = Z.to_nat ns →
  ∃ row', forbid_node r ns u yij row = Some row' ∧
          length row' = Z.to_nat ns ∧
          ∀ s us v, u !! s = Some us → row !! s = Some v →
            row' !! s = Some (if negb (Z.of_nat s / r =? yij)
                              then forbidden_value us else v).
Proof.
  intros Hu Hrow. unfold forbid_node, np_arange.
  destruct (zipM_is_Some (λ (s : nat) (us : float), Some (s, us))
              (seq 0 (Z.to_nat ns)) u) as [su Hsu].
  { by rewrite length_seq. }
  { by eauto. }
  rewrite Hsu. csimpl.
  destruct (zipM_length _ _ _ _ Hsu) as [_ Hlsu]. rewrite length_seq in Hlsu.
  match goal with |- ∃ _, zipM ?g su row = _ ∧ _ =>
    destruct (zipM_is_Some g su row) as [row' Hrow'] end.
  { lia. }
  { intros i [s us] v _ _. by eauto. }
  exists row'. split; [done|]. split.
  { destruct (zipM_length _ _ _ _ Hrow') as [_ ->]. done. }
  intros s us v Hus Hv.
  assert (seq 0 (Z.to_nat ns) !! s = Some s) as Hs.
  { apply lookup_seq. split; [done|]. apply lookup_lt_Some in Hus. lia. }
  destruct (zipM_lookup _ _ _ _ _ _ _ Hsu Hs Hus) as (p & Hp & Hsu_s).
  simplify_eq.
  destruct (zipM_lookup _ _ _ _ _ _ _ Hrow' Hsu_s Hv) as (z & Hz & ->).
  by simplify_eq.
Qed.

Lemma forbid_other_states_spec (r ns : Z) (u : weights) (y : label_map)
    (x_wide : unaries) H W :
  length u = Z.to_nat ns →
  shape2 H W y → shape3 H W (Z.to_nat ns) x_wide →
  ∃ xw, forbid_other_states r ns u y x_wide = Some xw ∧
        shape3 H W (Z.to_nat ns) xw ∧
        ∀ i j s yij us v,
          get2 y i j = Some yij → u !! s = Some us →
          get3 x_wide i j s = Some v →
          get3 xw i j s = Some (if negb (Z.of_nat s / r =? yij)
                                then forbidden_value us else v).
Proof.
  intros Hu Hy Hx. unfold forbid_other_states.
  assert (Hx2 : shape2 H W x_wide).
  { destruct Hx as [Hl Hr]. split; [done|].
    eapply Forall_impl; [exact Hr|]. by intros row [? _]. }
  assert (Hnode : ∀ i j (row : list float),
    get2 x_wide i j = Some row → length row = Z.to_nat ns).
  { intros i j row Hrow. unfold get2 in Hrow.
    destruct (x_wide !! i) as [xr|] eqn:Hxr; [|done]. simpl in Hrow.
    exact (shape2_lookup _ _ _ _ _ (shape3_lookup _ _ _ _ _ _ Hx Hxr) Hrow). }
  destruct (zipM2_spec (forbid_node r ns u) y x_wide H W Hy Hx2)
    as (xw & Hxw & Hs2 & Hget).
  { intros i j yij row _ Hrow.
    destruct (forbid_node_spec r ns u yij row Hu (Hnode _ _ _ Hrow))
      as (row' & -> & _). by eexists. }
  exists xw. split; [done|]. split.
  - destruct Hs2 as [Hl Hr]. split; [done|].
    apply Forall_lookup. intros i xr Hxr. split.
    + exact (Forall_lookup_1 (λ row, length row = W) xw i xr Hr Hxr).
    + apply Forall_lookup. intros j row' Hrow'.
      assert (i < H)%nat as Hi by (apply lookup_lt_Some in Hxr; lia).
      assert (j < W)%nat as Hj.
      { apply lookup_lt_Some in Hrow'.
        by rewrite (Forall_lookup_1 (λ row, length row = W) xw i xr Hr Hxr)
          in Hrow'. }
      destruct (get2_is_Some y H W i j Hy Hi Hj) as [yij Hyij].
      destruct (get2_is_Some x_wide H W i j Hx2 Hi Hj) as [row Hrow].
      destruct (Hget i j yij row Hyij Hrow) as (z & Hz & Hgz).
      destruct (forbid_node_spec r ns u yij row Hu (Hnode _ _ _ Hrow))
        as (z' & Hz' & Hlen & _).
      unfold get2 in Hgz. rewrite Hxr in Hgz. simpl in Hgz.
      by simplify_eq.
  - intros i j s yij us v Hyij Hus Hv. unfold get3 in *.
    destruct (x_wide !! i) as [xr|] eqn:Hxr; [|done]. simpl in Hv.
    destruct (xr !! j) as [row|] eqn:Hrow; [|done]. simpl in Hv.
    assert (get2 x_wide i j = Some row) as Hg.
    { unfold get2. by rewrite Hxr. }
    destruct (Hget i j yij row Hyij Hg) as (z & Hz & Hgz).
    destruct (forbid_node_spec r ns u yij row Hu (Hnode _ _ _ Hg))
      as (z' & Hz' & _ & Hent).
    simplify_eq. unfold get2 in Hgz.
    destruct (xw !! i) as [xr'|]; [|done]. simpl in *. rewrite Hgz. simpl.
    by apply Hent.
Qed.

Lemma shape3_repeat (x : unaries) H W K n :
  shape3 H W K x → shape3 H W (K * n) (map2d (repeat_each n) x).
Proof.
  intros [Hl Hr]. unfold map2d. split; [by rewrite length_fmap|].
  apply Forall_fmap. eapply Forall_impl; [exact Hr|].
  intros row [Hlr Hrr]. simpl. split; [by rewrite length_fmap|].
  apply Forall_fmap. eapply Forall_impl; [exact Hrr|].
  intros feats Hf. simpl. by rewrite length_repeat_each, Hf.
Qed.

Lemma get3_repeat (x : unaries) n i j s :
  (0 < n)%nat →
  get3 (map2d (repeat_each n) x) i j s = get3 x i j (s / n)%nat.
Proof.
  intros Hn. unfold get3, map2d. rewrite list_lookup_fmap.
  destruct (x !! i) as [row|]; [|done]. simpl. rewrite list_lookup_fmap.
  destruct (row !! j) as [feats|]; [|done]. simpl.
  by apply lookup_repeat_each.
Qed.

Lemma length_py_slice_to (ns : Z) (w : weights) :
  0 ≤ ns → (Z.to_nat ns ≤ length w)%nat →
  length (py_slice_to ns w) = Z.to_nat ns.
Proof.
  intros Hns Hw. unfold py_slice_to. rewrite decide_False by lia.
  by apply length_take_le.
Qed.

Lemma lookup_py_slice_to (ns : Z) (w : weights) s :
  0 ≤ ns → (s < Z.to_nat ns)%nat → py_slice_to ns w !! s = w !! s.
Proof.
  intros Hns Hs. unfold py_slice_to. rewrite decide_False by lia.
  by apply lookup_take_lt.
Qed.

Lemma latent_unaries_spec (self : LatentCRF) (r nl : Z) (x : unaries)
    (y : label_map) (w : weights) H W :
  n_states_per_label self = PyInt r → n_states self = PyInt (nl * r) →
  0 < r → 0 ≤ nl →
  shape3 H W (Z.to_nat nl) x → shape2 H W y →
  (Z.to_nat (nl * r) ≤ length w)%nat →
  ∃ xw, latent_unaries self x y w = Some xw ∧
        shape3 H W (Z.to_nat (nl * r)) xw ∧
        ∀ i j s yij us xv,
          get2 y i j = Some yij → w !! s = Some us →
          (s < Z.to_nat (nl * r))%nat →
          get3 x i j (s / Z.to_nat r)%nat = Some xv →
          get3 xw i j s = Some (if negb (Z.of_nat s / r =? yij)
                                then forbidden_value us else xv).
Proof.
  intros Hr Hns Hrpos Hnl Hx Hy Hw. unfold latent_unaries, get_unary_weights.
  rewrite Hr, Hns, np_repeat_last_int by lia. csimpl.
  assert (Hxw : shape3 H W (Z.to_nat (nl * r))
                  (map2d (repeat_each (Z.to_nat r)) x)).
  { rewrite Z2Nat.inj_mul by lia. by apply shape3_repeat. }
  destruct (forbid_other_states_spec r (nl * r) (py_slice_to (nl * r) w) y
              (map2d (repeat_each (Z.to_nat r)) x) H W)
    as (xw & Hz & Hs & Hget); [|done..|].
  { apply length_py_slice_to; [lia|done]. }
  exists xw. split; [done|]. split; [done|].
  intros i j s yij us xv Hyij Hus Hlt Hxv. apply Hget; [done|..].
  - rewrite lookup_py_slice_to; [done|lia|done].
  - rewrite get3_repeat by lia. done.
Qed.

Lemma latent_cases base_inference (self : LatentCRF) (r : Z) x y w x_wide ne :
  n_states_per_label self = PyInt r →
  latent_unaries self x y w = Some x_wide →
  np_not_equal (map2d (λ v, v / r) (base_inference self x_wide w)) y
    = Some ne →
  latent base_inference self x y w =
    Some (if np_any2 ne
          then (map2d (λ v, wrap64 (v * r)) y,
                if np_any w then [Print "inconsistent h and y"; TracerCall]
                else [])
          else (base_inference self x_wide w, [])).
Proof.
  intros Hr Hx Hne. unfold latent. rewrite Hx, Hr. csimpl. rewrite Hne.
  csimpl. by destruct (np_any2 ne), (np_any w).
Qed.

(** Both constructors, given an int [r], build a model with
    [n_states_per_label = r] and [n_states = n_labels * r]. *)
Lemma init_int_fields (nl r : Z) (method : string) :
  let grid := LatentGridCRF_init nl (PyInt r) method in
  let directional := LatentDirectionalGridCRF_init nl (PyInt r) method in
  (n_states_per_label grid = PyInt r ∧ n_states grid = PyInt (nl * r)) ∧
  (n_states_per_label directional = PyInt r ∧
   n_states directional = PyInt (nl * r)).
Proof. done. Qed.

(** C1: for a model with [n_states_per_label] a positive int [r] and
    [n_labels * r] states, an input [x] with one unary per label, a
    label map [y] with labels below [n_labels], any weight vector [w]
    with a unary block, and any base inference that labels every node,
    [latent] returns a hidden map [h] with [h // r == y] at every
    node. *)
Theorem latent_consistent_with_y
    (base_inference : LatentCRF → unaries → weights → label_map)
    (self : LatentCRF) (r nl : Z) (x : unaries) (y : label_map)
    (w : weights) (H W : nat) :
  n_states_per_label self = PyInt r → n_states self = PyInt (nl * r) →
  0 < r → 0 ≤ nl → nl * r ≤ 2 ^ 63 →
  shape3 H W (Z.to_nat nl) x → shape2 H W y →
  Forall (Forall (λ v, 0 ≤ v < nl)) y →
  (Z.to_nat (nl * r) ≤ length w)%nat →
  (∀ x_wide, shape2 H W (base_inference self x_wide w)) →
  ∃ h out, latent base_inference self x y w = Some (h, out) ∧
           shape2 H W h ∧ map2d (λ v, v / r) h = y.
Proof.
  intros Hr Hns Hrpos Hnl Hfit Hx Hy Hlab Hw Hbase.
  destruct (latent_unaries_spec self r nl x y w H W) as (xw & Hxw & _);
    [done..|].
  destruct (np_not_equal_total
              (map2d (λ v, v / r) (base_inference self xw w)) y H W)
    as [ne Hne]; [by apply shape2_map2d|done|].
  rewrite (latent_cases _ _ _ _ _ _ _ _ Hr Hxw Hne).
  destruct (np_any2 ne) eqn:Hany.
  - eexists _, _. split; [done|]. split; [by apply shape2_map2d|].
    rewrite map2d_compose. apply map2d_id_on.
    eapply Forall_impl; [exact Hlab|]. intros row Hrow.
    eapply Forall_impl; [exact Hrow|]. intros v Hv. simpl in *.
    assert (0 ≤ v * r) by (apply Z.mul_nonneg_nonneg; lia).
    assert (v * r < nl * r) by (apply Z.mul_lt_mono_pos_r; lia).
    rewrite wrap64_small by lia. by rewrite Z.div_mul by lia.
  - eexists _, _. split; [done|]. split; [done|].
    by eapply np_not_equal_any_false.
Qed.

Lemma latent_consistent_with_y_witness :
  ∃ h out,
    latent (λ _ _ _, [[0]]) (LatentGridCRF_init 2 (PyInt 2) "qpbo")
           [[[1; 2]]]%float [[1]] [0; 2; -4; 0.5; 7]%float = Some (h, out) ∧
    shape2 1 1 h ∧ map2d (λ v, v / 2) h = [[1]].
Proof.
  apply (latent_consistent_with_y _ _ 2 2 _ _ _ 1 1);
    try reflexivity; try lia;
    try (intros; split; [reflexivity|repeat constructor]);
    repeat constructor; simpl; lia.
Defined.

(** C2: when the assignment [h] that the base inference computes inside
    [latent] has [h // r != y] at some node and [w] has a non-zero
    entry, [latent] prints "inconsistent h and y", enters the debugger,
    and returns [y * r] in place of [h]. *)
Theorem latent_reports_and_falls_back
    (base_inference : LatentCRF → unaries → weights → label_map)
    (self : LatentCRF) (r : Z) (x : unaries) (y : label_map) (w : weights)
    (x_wide : unaries) (H W : nat) :
  n_states_per_label self = PyInt r →
  latent_unaries self x y w = Some x_wide →
  shape2 H W (base_inference self x_wide w) → shape2 H W y →
  map2d (λ v, v / r) (base_inference self x_wide w) ≠ y →
  np_any w = true →
  latent base_inference self x y w =
    Some (map2d (λ v, wrap64 (v * r)) y,
          [Print "inconsistent h and y"; TracerCall]).
Proof.
  intros Hr Hxw Hh Hy Hbad Hw.
  destruct (np_not_equal_total
              (map2d (λ v, v / r) (base_inference self x_wide w)) y H W)
    as [ne Hne]; [by apply shape2_map2d|done|].
  rewrite (latent_cases _ _ _ _ _ _ _ _ Hr Hxw Hne).
  by rewrite (np_not_equal_any_true _ _ _ Hne Hbad), Hw.
Qed.

Lemma latent_reports_and_falls_back_witness :
  latent (λ _ _ _, [[0]]) (LatentGridCRF_init 2 (PyInt 2) "qpbo")
         [[[1; 2]]]%float [[1]] [0; 2; -4; 0.5; 7]%float =
    Some (map2d (λ v, wrap64 (v * 2)) [[1]],
          [Print "inconsistent h and y"; TracerCall]).
Proof.
  apply (latent_reports_and_falls_back _ _ 2 _ _ _
           [[[-0; -1000; 2; 2]]]%float 1 1);
    try reflexivity; try (split; [reflexivity|repeat constructor]).
  discriminate.
Defined.

Lemma np_any_zero (w : weights) :
  Forall (λ v, (v =? 0)%float = true) w → np_any w = false.
Proof.
  unfold np_any. induction 1 as [|v w Hv _ IH]; simpl; [done|].
  by rewrite Hv, IH.
Qed.

(** C10: when every entry of [w] equals zero and the assignment that
    the base inference computes inside [latent] is inconsistent with
    [y], [latent] returns [y * r] and reports nothing; whenever
    [latent] prints "inconsistent h and y", [w] has a non-zero
    entry. *)
Theorem latent_silent_on_zero_weights
    (base_inference : LatentCRF → unaries → weights → label_map)
    (self : LatentCRF) (x : unaries) (y : label_map) (w : weights) :
  (∀ r x_wide H W,
     n_states_per_label self = PyInt r →
     latent_unaries self x y w = Some x_wide →
     shape2 H W (base_inference self x_wide w) → shape2 H W y →
     map2d (λ v, v / r) (base_inference self x_wide w) ≠ y →
     Forall (λ v, (v =? 0)%float = true) w →
     latent base_inference self x y w =
       Some (map2d (λ v, wrap64 (v * r)) y, [])) ∧
  (∀ h out,
     latent base_inference self x y w = Some (h, out) →
     Print "inconsistent h and y" ∈ out → np_any w = true).
Proof.
  split.
  - intros r x_wide H W Hr Hxw Hh Hy Hbad Hw.
    destruct (np_not_equal_total
                (map2d (λ v, v / r) (base_inference self x_wide w)) y H W)
      as [ne Hne]; [by apply shape2_map2d|done|].
    rewrite (latent_cases _ _ _ _ _ _ _ _ Hr Hxw Hne).
    by rewrite (np_not_equal_any_true _ _ _ Hne Hbad), (np_any_zero _ Hw).
  - intros h out Hl Hout. unfold latent in Hl.
    destruct (np_any w); [done|].
    repeat (simplify_option_eq || case_match); set_solver.
Qed.

Lemma latent_silent_on_zero_weights_witness :
  latent (λ _ _ _, [[0]]) (LatentGridCRF_init 2 (PyInt 2) "qpbo")
         [[[1; 2]]]%float [[1]] [0; 0; 0; 0]%float =
    Some (map2d (λ v, wrap64 (v * 2)) [[1]], []).
Proof.
  apply (proj1 (latent_silent_on_zero_weights _ _ _ _ _) 2
           [[[-0; -0; 2; 2]]]%float 1%nat 1%nat);
    try reflexivity; try (split; [reflexivity|repeat constructor]).
  - discriminate.
  - repeat constructor.
Defined.

(** C3, as stated, fails: with two labels, two states per label, the
    label [y = 1] at the only node and the weight vector of fourteen
    zeros (four unary and ten pairwise weights), state 0 is
    inconsistent with [y], and the entry that [latent] writes for it is
    [-0.0]: neither the entry nor its product with the weight is
    negative. *)
Lemma latent_zero_weight_not_clamped :
  ∃ x_wide v,
    latent_unaries (LatentGridCRF_init 2 (PyInt 2) "qpbo")
                   [[[1; 2]]]%float [[1]] (replicate 14 0%float)
      = Some x_wide ∧
    Z.of_nat 0 / 2 ≠ 1 ∧
    get3 x_wide 0 0 0 = Some v ∧
    (v <? 0)%float = false ∧
    (v * 0 <? 0)%float = false.
Proof. exists [[[-0; -0; 2; 2]]]%float, (-0)%float. by vm_compute. Qed.

(** C3, amended: for every well-shaped [x], [y] and [w], in the unaries
    that [latent] hands to the inference the entry of every state [s]
    inconsistent with [y] at the node is [-1000 * sign(w[s])], which is
    1000 for a negative weight, -1000 for a positive weight and -0.0
    for a zero weight; the entry of a consistent state is the expanded
    value [x[i, j, s // r]]. *)
Theorem latent_forbids_by_weight_sign
    (self : LatentCRF) (r nl : Z) (x : unaries) (y : label_map)
    (w : weights) (H W : nat) :
  n_states_per_label self = PyInt r → n_states self = PyInt (nl * r) →
  0 < r → 0 ≤ nl →
  shape3 H W (Z.to_nat nl) x → shape2 H W y →
  (Z.to_nat (nl * r) ≤ length w)%nat →
  ∃ x_wide,
    latent_unaries self x y w = Some x_wide ∧
    (∀ i j s, (i < H)%nat → (j < W)%nat → (s < Z.to_nat (nl * r))%nat →
       ∃ yij u xv,
         get2 y i j = Some yij ∧ w !! s = Some u ∧
         get3 x i j (s / Z.to_nat r)%nat = Some xv ∧
         get3 x_wide i j s =
           Some (if decide (Z.of_nat s / r = yij) then xv
                 else forbidden_value u)) ∧
    (∀ u, forbidden_value u =
          (if u <? 0 then 1000 else if 0 <? u then -1000
           else if u =? 0 then -0 else -1000 * u * 1)%float).
Proof.
  intros Hr Hns Hrpos Hnl Hx Hy Hw.
  destruct (latent_unaries_spec self r nl x y w H W)
    as (xw & Hxw & _ & Hget); [done..|].
  exists xw. split; [done|]. split.
  - intros i j s Hi Hj Hs.
    destruct (get2_is_Some y H W i j Hy Hi Hj) as [yij Hyij].
    destruct (lookup_lt_is_Some_2 w s) as [u Hu]; [lia|].
    destruct (get3_is_Some x H W (Z.to_nat nl) i j (s / Z.to_nat r) Hx Hi Hj)
      as [xv Hxv].
    { apply Nat.Div0.div_lt_upper_bound.
      rewrite Z2Nat.inj_mul in Hs by lia. lia. }
    exists yij, u, xv. repeat split; [done..|].
    rewrite (Hget i j s yij u xv) by done.
    destruct (Z.eqb_spec (Z.of_nat s / r) yij); simpl.
    + by rewrite decide_True.
    + by rewrite decide_False.
  - intros u. unfold forbidden_value, np_sign.
    by destruct (u <? 0)%float, (0 <? u)%float, (u =? 0)%float.
Qed.

Lemma latent_forbids_by_weight_sign_witness :
  ∃ x_wide,
    latent_unaries (LatentGridCRF_init 2 (PyInt 2) "qpbo")
                   [[[1; 2]]]%float [[1]] [0; 2; -4; 0.5; 7]%float
      = Some x_wide ∧
    (∀ i j s, (i < 1)%nat → (j < 1)%nat → (s < Z.to_nat (2 * 2))%nat →
       ∃ yij u xv,
         get2 [[1]] i j = Some yij ∧
         [0; 2; -4; 0.5; 7]%float !! s = Some u ∧
         get3 [[[1; 2]]]%float i j (s / Z.to_nat 2)%nat = Some xv ∧
         get3 x_wide i j s =
           Some (if decide (Z.of_nat s / 2 = yij) then xv
                 else forbidden_value u)) ∧
    (∀ u, forbidden_value u =
          (if u <? 0 then 1000 else if 0 <? u then -1000
           else if u =? 0 then -0 else -1000 * u * 1)%float).
Proof.
  apply (latent_forbids_by_weight_sign _ 2 2 _ _ _ 1 1);
    try reflexivity; try lia;
    try (split; [reflexivity|repeat constructor]).
  simpl. lia.
Defined.

(** ** [loss_augment] *)

Lemma shape3_shape2 {A} (a : list (list (list A))) H W K :
  shape3 H W K a → shape2 H W a.
Proof.
  intros [Hl Hr]. split; [done|].
  eapply Forall_impl; [exact Hr|]. by intros row [? _].
Qed.

Lemma get2_node_length {A} (a : list (list (list A))) H W K i j node :
  shape3 H W K a → get2 a i j = Some node → length node = K.
Proof.
  intros Ha Hn. unfold get2 in Hn.
  destruct (a !! i) as [row|] eqn:Hrow; [|done]. simpl in Hn.
  exact (shape2_lookup _ _ _ _ _ (shape3_lookup _ _ _ _ _ _ Ha Hrow) Hn).
Qed.

Lemma get3_get2 {A} (a : list (list (list A))) i j s :
  get3 a i j s = node ← get2 a i j; node !! s.
Proof. unfold get3, get2. by destruct (a !! i). Qed.

Lemma shape3_intro {A} (a : list (list (list A))) H W K :
  shape2 H W a →
  (∀ i j node, get2 a i j = Some node → length node = K) →
  shape3 H W K a.
Proof.
  intros [Hl Hr] Hn. split; [done|]. apply Forall_lookup. intros i row Hrow.
  split; [exact (Forall_lookup_1 (λ row, length row = W) a i row Hr Hrow)|].
  apply Forall_lookup. intros j node Hnode. apply (Hn i j).
  unfold get2. by rewrite Hrow.
Qed.

Lemma add_where_spec (mask : list (list bool)) (s : nat) (v : float)
    (x_wide : unaries) H W K :
  shape2 H W mask → shape3 H W K x_wide → (s < K)%nat →
  ∃ xw, add_where mask s v x_wide = Some xw ∧ shape3 H W K xw ∧
        ∀ i j s' t old,
          get2 mask i j = Some t → get3 x_wide i j s' = Some old →
          get3 xw i j s' =
            Some (if decide (s' = s ∧ t = true) then (old + v)%float
                  else old).
Proof.
  intros Hm Hx Hs. unfold add_where.
  assert (Hadd : ∀ node : list float, length node = K →
    ∃ u, node !! s = Some u ∧
         add_at s v node = Some (<[s := (u + v)%float]> node)).
  { intros node Hnode. destruct (lookup_lt_is_Some_2 node s) as [u Hu];
      [lia|]. exists u. split; [done|]. unfold add_at. by rewrite Hu. }
  match goal with |- ∃ _, zipM (zipM ?g) _ _ = _ ∧ _ =>
    destruct (zipM2_spec g mask x_wide H W Hm (shape3_shape2 _ _ _ _ Hx))
      as (xw & Hxw & Hs2 & Hget) end.
  { intros i j [|] node _ Hnode; [|by eexists].
    destruct (Hadd node (get2_node_length _ _ _ _ _ _ _ Hx Hnode))
      as (u & _ & ->). by eexists. }
  exists xw. split; [done|]. split.
  - apply shape3_intro; [done|]. intros i j node' Hnode'.
    assert (i < H)%nat as Hi.
    { unfold get2 in Hnode'. destruct (xw !! i) eqn:E; [|done].
      apply lookup_lt_Some in E. destruct Hs2. lia. }
    assert (j < W)%nat as Hj.
    { unfold get2 in Hnode'. destruct (xw !! i) as [row|] eqn:E; [|done].
      simpl in Hnode'. apply lookup_lt_Some in Hnode'.
      by rewrite (shape2_lookup _ _ _ _ _ Hs2 E) in Hnode'. }
    destruct (get2_is_Some mask H W i j Hm Hi Hj) as [t Ht].
    destruct (get2_is_Some x_wide H W i j (shape3_shape2 _ _ _ _ Hx) Hi Hj)
      as [node Hnode].
    destruct (Hget i j t node Ht Hnode) as (z & Hz & Hgz).
    pose proof (get2_node_length _ _ _ _ _ _ _ Hx Hnode) as Hlen.
    destruct (Hadd node Hlen) as (u & _ & Hau).
    destruct t; simplify_eq; [by rewrite length_insert|done].
  - intros i j s' t old Ht Hold. rewrite get3_get2 in *.
    destruct (get2 x_wide i j) as [node|] eqn:Hnode; [|done]. simpl in Hold.
    destruct (Hget i j t node Ht Hnode) as (z & Hz & ->). simpl.
    pose proof (get2_node_length _ _ _ _ _ _ _ Hx Hnode) as Hlen.
    destruct (Hadd node Hlen) as (u & Hu & Hau).
    destruct t; simplify_eq.
    + destruct (decide (s' = s)) as [->|Hne].
      * rewrite decide_True by done.
        rewrite list_lookup_insert_eq by lia. by simplify_eq.
      * rewrite decide_False by (by intros [? _]).
        by rewrite list_lookup_insert_ne.
    + by rewrite decide_False by (by intros [_ ?]).
Qed.

Lemma loss_augment_step_spec (r : Z) (h : label_map) (up : weights)
    (x_wide : unaries) (s : nat) (u : float) H W K :
  shape2 H W h → shape3 H W K x_wide → (s < K)%nat → up !! s = Some u →
  ∃ xw, loss_augment_step r h up x_wide s = Some xw ∧ shape3 H W K xw ∧
        ∀ i j s' hij old,
          get2 h i j = Some hij → get3 x_wide i j s' = Some old →
          get3 xw i j s' =
            Some (if decide (s' = s ∧ hij / r ≠ Z.of_nat s / r)
                  then (old + 1 / u)%float else old).
Proof.
  intros Hh Hx Hs Hu. unfold loss_augment_step. rewrite Hu. csimpl.
  destruct (add_where_spec
              (np_not_equal_scalar (map2d (λ v, v / r) h) (Z.of_nat s / r))
              s (1 / u)%float x_wide H W K) as (xw & Hxw & Hsh & Hget);
    [by do 2 apply shape2_map2d|done..|].
  exists xw. split; [done|]. split; [done|].
  intros i j s' hij old Hhij Hold.
  rewrite (Hget i j s' (negb (hij / r =? Z.of_nat s / r)) old); [|
    unfold np_not_equal_scalar; rewrite !get2_map2d, Hhij; done|done].
  destruct (Z.eqb_spec (hij / r) (Z.of_nat s / r)) as [He|He]; simpl.
  - rewrite decide_False by (by intros [_ ?]).
    by rewrite decide_False by (by intros [_ ?]).
  - destruct (decide (s' = s)) as [->|Hne].
    + by rewrite !decide_True by done.
    + by rewrite !decide_False by (by intros [? _]).
Qed.

Lemma loss_augment_loop_spec (r : Z) (h : label_map) (up : weights)
    (l : list nat) (x_wide : unaries) H W K :
  shape2 H W h → shape3 H W K x_wide → NoDup l →
  (∀ s, s ∈ l → (s < K)%nat ∧ is_Some (up !! s)) →
  ∃ xw, for_each (loss_augment_step r h up) l x_wide = Some xw ∧
        shape3 H W K xw ∧
        ∀ i j s hij old u,
          get2 h i j = Some hij → get3 x_wide i j s = Some old →
          up !! s = Some u →
          get3 xw i j s =
            Some (if decide (s ∈ l ∧ hij / r ≠ Z.of_nat s / r)
                  then (old + 1 / u)%float else old).
Proof.
  intros Hh Hx Hnd Hl. revert x_wide Hx.
  induction l as [|s0 l IH]; intros x_wide Hx; simpl.
  - exists x_wide. split; [done|]. split; [done|].
    by intros i j s hij old u _ -> _.
  - apply NoDup_cons in Hnd as [Hs0 Hnd].
    destruct (Hl s0) as [Hlt [u0 Hu0]]; [by left|].
    destruct (loss_augment_step_spec r h up x_wide s0 u0 H W K)
      as (xw1 & -> & Hsh1 & Hget1); [done..|]. csimpl.
    destruct (IH Hnd) with (x_wide := xw1) as (xw & Hxw & Hsh & Hget);
      [by intros s Hs; apply Hl; right|done|].
    exists xw. split; [done|]. split; [done|].
    intros i j s hij old u Hhij Hold Hu.
    rewrite (Hget i j s hij _ u Hhij (Hget1 i j s hij old Hhij Hold) Hu).
    f_equal. destruct (decide (s = s0)) as [->|Hne].
    + simplify_eq. rewrite (decide_False (P := s0 ∈ l ∧ _))
        by (by intros [? _]).
      destruct (decide (hij / r = Z.of_nat s0 / r)) as [He|He].
      * rewrite decide_False by (by intros [_ ?]).
        by rewrite decide_False by (by intros [_ ?]).
      * rewrite decide_True by done.
        by rewrite decide_True by (split; [left|done]).
    + rewrite (decide_False (P := s = s0 ∧ _)) by (by intros [? _]).
      destruct (decide (s ∈ l ∧ hij / r ≠ Z.of_nat s / r)) as [[Hin Hc]|Hn].
      * by rewrite decide_True by (split; [by right|done]).
      * rewrite decide_False; [done|]. intros [Hin Hc]. apply Hn.
        split; [|done]. by apply elem_of_cons in Hin as [?|?].
Qed.

(** C4: for a well-shaped input, [loss_augment] returns the unaries
    expanded to one column per state in which the entry of node
    [(i, j)] and state [s] is the expanded value [x[i, j, s // r]] when
    [h[i, j] // r == s // r], and that value plus [1 / w[s]] otherwise,
    where a weight equal to zero is replaced by [1e-10]. *)
Theorem loss_augment_boosts_other_groups
    (self : LatentCRF) (r nl : Z) (x : unaries) (h : label_map)
    (w : weights) (H W : nat) :
  n_states_per_label self = PyInt r → n_states self = PyInt (nl * r) →
  0 < r → 0 ≤ nl →
  shape3 H W (Z.to_nat nl) x → shape2 H W h →
  (Z.to_nat (nl * r) ≤ length w)%nat →
  ∃ x_wide,
    loss_augment self x h w = Some x_wide ∧
    shape3 H W (Z.to_nat (nl * r)) x_wide ∧
    ∀ i j s, (i < H)%nat → (j < W)%nat → (s < Z.to_nat (nl * r))%nat →
      ∃ hij u xv,
        get2 h i j = Some hij ∧ w !! s = Some u ∧
        get3 x i j (s / Z.to_nat r)%nat = Some xv ∧
        get3 x_wide i j s =
          Some (if decide (hij / r = Z.of_nat s / r) then xv
                else (xv + 1 / (if u =? 0 then 1e-10 else u))%float).
Proof.
  intros Hr Hns Hrpos Hnl Hx Hh Hw. unfold loss_augment.
  rewrite Hr, Hns, np_repeat_last_int by lia. csimpl.
  assert (Hxw : shape3 H W (Z.to_nat (nl * r))
                  (map2d (repeat_each (Z.to_nat r)) x)).
  { rewrite Z2Nat.inj_mul by lia. by apply shape3_repeat. }
  assert (Hup : ∀ s u, (s < Z.to_nat (nl * r))%nat → w !! s = Some u →
    guard_zero (py_slice_to (nl * r) w) !! s
      = Some (if u =? 0 then 1e-10 else u)%float).
  { intros s u Hs Hu. unfold guard_zero.
    rewrite list_lookup_fmap, lookup_py_slice_to, Hu by lia. done. }
  destruct (loss_augment_loop_spec r h (guard_zero (py_slice_to (nl * r) w))
              (np_arange (nl * r)) (map2d (repeat_each (Z.to_nat r)) x)
              H W (Z.to_nat (nl * r)))
    as (xw & Hz & Hsh & Hget); [done|done|apply NoDup_seq| |].
  { intros s Hs. apply elem_of_seq in Hs.
    destruct (lookup_lt_is_Some_2 w s) as [u Hu]; [lia|].
    split; [lia|]. rewrite (Hup s u) by (done || lia). by eexists. }
  exists xw. split; [done|]. split; [done|].
  intros i j s Hi Hj Hs.
  destruct (get2_is_Some h H W i j Hh Hi Hj) as [hij Hhij].
  destruct (lookup_lt_is_Some_2 w s) as [u Hu]; [lia|].
  destruct (get3_is_Some x H W (Z.to_nat nl) i j (s / Z.to_nat r) Hx Hi Hj)
    as [xv Hxv].
  { apply Nat.Div0.div_lt_upper_bound.
    rewrite Z2Nat.inj_mul in Hs by lia. lia. }
  exists hij, u, xv. repeat split; [done..|].
  rewrite (Hget i j s hij xv (if u =? 0 then 1e-10 else u)%float Hhij);
    [|by rewrite get3_repeat by lia|by apply Hup].
  f_equal. destruct (decide (hij / r = Z.of_nat s / r)) as [He|He].
  - by rewrite decide_False by (by intros [_ ?]).
  - rewrite decide_True; [done|]. split; [|done].
    apply elem_of_seq. lia.
Qed.

Lemma loss_augment_boosts_other_groups_witness :
  ∃ x_wide,
    loss_augment (LatentGridCRF_init 2 (PyInt 2) "qpbo")
                 [[[1; 2]]]%float [[3]] [0; 2; 4; 0.5; 7]%float
      = Some x_wide ∧
    shape3 1 1 (Z.to_nat (2 * 2)) x_wide ∧
    ∀ i j s, (i < 1)%nat → (j < 1)%nat → (s < Z.to_nat (2 * 2))%nat →
      ∃ hij u xv,
        get2 [[3]] i j = Some hij ∧
        [0; 2; 4; 0.5; 7]%float !! s = Some u ∧
        get3 [[[1; 2]]]%float i j (s / Z.to_nat 2)%nat = Some xv ∧
        get3 x_wide i j s =
          Some (if decide (hij / 2 = Z.of_nat s / 2) then xv
                else (xv + 1 / (if u =? 0 then 1e-10 else u))%float).
Proof.
  apply (loss_augment_boosts_other_groups _ 2 2 _ _ _ 1 1);
    try reflexivity; try lia;
    try (split; [reflexivity|repeat constructor]).
  simpl. lia.
Defined.

(** C9: the divisors of [loss_augment] are the entries of the local
    copy [unary_params] of [w[:n_states]] in which every entry equal to
    zero has been replaced by [1e-10]; none of them equals zero, so no
    [1 / unary_params[s]] of the loop divides by zero, for any [w]. *)
Theorem loss_augment_divisor_never_zero (ns : Z) (w : weights) :
  let unary_params := guard_zero (py_slice_to ns w) in
  (∀ self r x h,
     n_states_per_label self = PyInt r → n_states self = PyInt ns →
     loss_augment self x h w =
       x_wide ← np_repeat_last x (PyInt r);
       for_each (loss_augment_step r h unary_params) (np_arange ns) x_wide) ∧
  (∀ s, unary_params !! s =
        (λ u, if u =? 0 then 1e-10 else u)%float <$> py_slice_to ns w !! s) ∧
  (∀ s d, unary_params !! s = Some d → (d =? 0)%float = false) ∧
  (∀ r h x_wide s xw,
     loss_augment_step r h unary_params x_wide s = Some xw →
     ∃ d, unary_params !! s = Some d ∧ (d =? 0)%float = false ∧
          add_where
            (np_not_equal_scalar (map2d (λ v, v / r) h) (Z.of_nat s / r))
            s (1 / d)%float x_wide = Some xw).
Proof.
  assert (Hnz : ∀ s d, guard_zero (py_slice_to ns w) !! s = Some d →
                       (d =? 0)%float = false).
  { intros s d Hd. unfold guard_zero in Hd. rewrite list_lookup_fmap in Hd.
    destruct (py_slice_to ns w !! s) as [u|]; simplify_eq/=.
    by destruct (u =? 0)%float eqn:Hu. }
  simpl. repeat split.
  - intros self r x h Hr Hns. unfold loss_augment. by rewrite Hr, Hns.
  - intros s. unfold guard_zero. by rewrite list_lookup_fmap.
  - exact Hnz.
  - intros r h x_wide s xw Hstep. unfold loss_augment_step in Hstep.
    destruct (guard_zero (py_slice_to ns w) !! s) as [d|] eqn:Hd;
      simplify_eq/=.
    exists d. eauto.
Qed.

(** ** The store: what the methods write to *)

Lemma alloc_spec v (σ σ1 : gmap nat ndarray) l :
  alloc v σ = (l, σ1) → σ !! l = None ∧ σ1 = <[l := v]> σ.
Proof.
  unfold alloc. intros [= <- <-]. split; [|done].
  apply not_elem_of_dom, is_fresh.
Qed.

Lemma for_each_invariant {S} (P : S → Prop) (body : S → nat → option S)
    (l : list nat) (st st' : S) :
  P st → (∀ st s st1, P st → body st s = Some st1 → P st1) →
  for_each body l st = Some st' → P st'.
Proof.
  intros HP Hstep. revert st HP.
  induction l as [|s l IH]; intros st HP Hrun; simpl in Hrun.
  - by simplify_eq.
  - destruct (body st s) as [st1|] eqn:Hb; [|done]. simpl in Hrun.
    eapply IH; [|exact Hrun]. by eapply Hstep.
Qed.

Lemma loss_augment_step_st_writes r h up xw (σ σ' : gmap nat ndarray) s :
  loss_augment_step_st r h up xw σ s = Some σ' →
  ∃ a, σ' = <[xw := FloatArr3 a]> σ.
Proof.
  unfold loss_augment_step_st. intros Hs.
  destruct (load2 h σ), (load1 up σ), (load3 xw σ) as [a|]; try done.
  simpl in Hs. destruct (loss_augment_step _ _ _ a s) as [a'|]; [|done].
  simpl in Hs. simplify_eq. by eexists.
Qed.

Lemma loss_augment_st_frame (self : LatentCRF) (x h w : nat)
    (σ σ' : gmap nat ndarray) (x_wide : nat) :
  loss_augment_st self x h w σ = Some (x_wide, σ') →
  σ !! x_wide = None ∧ ∀ k v, σ !! k = Some v → σ' !! k = Some v.
Proof.
  unfold loss_augment_st. intros Hrun.
  destruct (load3 x σ) as [xv|]; [|done]. cbn [mbind option_bind] in Hrun.
  destruct (np_repeat_last xv _) as [xw|]; [|done]. cbn [mbind option_bind] in Hrun.
  destruct (alloc (FloatArr3 xw) σ) as [lx σ1] eqn:Hx.
  apply alloc_spec in Hx as [Hlx ->].
  destruct (n_states_per_label self) as [r|]; [|done].
  destruct (n_states self) as [ns|]; [|done].
  destruct (load1 w _) as [wv|]; [|done]. cbn [mbind option_bind] in Hrun.
  destruct (alloc (FloatArr1 _) _) as [lu σ2] eqn:Hu.
  apply alloc_spec in Hu as [Hlu ->].
  destruct (load1 lu _) as [up|]; [|done]. cbn [mbind option_bind] in Hrun.
  match type of Hrun with context [for_each ?b ?l ?st] =>
    destruct (for_each b l st) as [σ4|] eqn:Hloop end; [|done].
  cbn [mbind option_bind] in Hrun. simplify_eq. split; [done|].
  intros k v Hk.
  assert (k ≠ x_wide) as Hkx by (intros ->; congruence).
  assert (k ≠ lu) as Hku.
  { intros ->. rewrite lookup_insert_ne in Hlu by done. congruence. }
  apply (for_each_invariant
           (λ σk : gmap nat ndarray, σk !! k = Some v) _ _ _ _) in Hloop;
    [done| |].
  - by rewrite !lookup_insert_ne by done.
  - intros σk s σk1 HP Hstep.
    apply loss_augment_step_st_writes in Hstep as [a ->].
    by rewrite lookup_insert_ne by done.
Qed.

(** C8: provided the base inference writes to no existing array other
    than the unaries it is handed, [inference(x, w)] and
    [loss_augmented_inference(x, h, w)] leave every array of the store
    as it was; in particular [x] and [w] hold after the call what they
    held before it. *)
Theorem inference_does_not_mutate_arguments
    (base_inference_st : LatentCRF → nat → nat → option bool →
                         gmap nat ndarray → option (nat * gmap nat ndarray))
    (self : LatentCRF) (x w : nat) (σ σ' : gmap nat ndarray)
    (ax aw : ndarray) (result : nat) :
  writes_only_unaries base_inference_st →
  σ !! x = Some ax → σ !! w = Some aw →
  (inference_st base_inference_st self x w σ = Some (result, σ') ∨
   ∃ h relaxed,
     loss_augmented_inference_st base_inference_st self x h w relaxed σ
       = Some (result, σ')) →
  σ' !! x = Some ax ∧ σ' !! w = Some aw ∧ σ ⊆ σ'.
Proof.
  intros Hbase Hx Hw Hrun.
  assert (∀ k v, σ !! k = Some v → σ' !! k = Some v) as Hframe.
  { destruct Hrun as [Hrun|(h & relaxed & Hrun)].
    - unfold inference_st in Hrun.
      destruct (load3 x σ) as [xv|]; [|done]. cbn [mbind option_bind] in Hrun.
      destruct (np_repeat_last xv _) as [xw|]; [|done]. cbn [mbind option_bind] in Hrun.
      destruct (alloc (FloatArr3 xw) σ) as [lx σ1] eqn:Ha.
      apply alloc_spec in Ha as [Hlx ->].
      intros k v Hk. apply (Hbase _ _ _ _ _ _ _ Hrun).
      + intros ->. congruence.
      + rewrite lookup_insert_ne; [done|]. intros ->. congruence.
    - unfold loss_augmented_inference_st in Hrun.
      destruct (loss_augment_st self x h w σ) as [[lx σ1]|] eqn:Hla;
        [|done].
      cbn [mbind option_bind] in Hrun. apply loss_augment_st_frame in Hla as [Hlx Hla].
      intros k v Hk. apply (Hbase _ _ _ _ _ _ _ Hrun).
      + intros ->. congruence.
      + by apply Hla. }
  split; [by apply Hframe|]. split; [by apply Hframe|].
  apply map_subseteq_spec. exact Hframe.
Qed.

Lemma fresh_result_writes_only_unaries (out : label_map) :
  writes_only_unaries (λ _ _ _ _ σ, Some (alloc (IntArr2 out) σ)).
Proof.
  intros self xw w relaxed σ h σ' Hrun k v Hk Hv.
  assert (alloc (IntArr2 out) σ = (h, σ')) as Ha by congruence.
  apply alloc_spec in Ha as [Hl ->].
  rewrite lookup_insert_ne; [done|]. intros ->. congruence.
Qed.

Lemma inference_does_not_mutate_arguments_witness :
  let σ : gmap nat ndarray :=
    <[0%nat := FloatArr3 [[[1; 2]]]%float]>
      (<[1%nat := FloatArr1 [0; 2; 4; 0.5; 7]%float]>
         (<[2%nat := IntArr2 [[3]]]> ∅)) in
  ∃ σ' : gmap nat ndarray,
    σ' !! 0%nat = Some (FloatArr3 [[[1; 2]]]%float) ∧
    σ' !! 1%nat = Some (FloatArr1 [0; 2; 4; 0.5; 7]%float) ∧
    σ ⊆ σ'.
Proof.
  intros σ. eexists.
  eapply (inference_does_not_mutate_arguments
            (λ _ _ _ _ σ, Some (alloc (IntArr2 [[0]]) σ))
            (LatentGridCRF_init 2 (PyInt 2) "qpbo") 0 1 σ _ _ _ 5).
  - apply fresh_result_writes_only_unaries.
  - reflexivity.
  - reflexivity.
  - right. exists 2%nat, false. vm_compute. reflexivity.
Defined.

Lemma load1_Some (σ : gmap nat ndarray) l a :
  σ !! l = Some (FloatArr1 a) → load1 l σ = Some a.
Proof. unfold load1. by intros ->. Qed.

Lemma load2_Some (σ : gmap nat ndarray) l a :
  σ !! l = Some (IntArr2 a) → load2 l σ = Some a.
Proof. unfold load2. by intros ->. Qed.

Lemma load3_Some (σ : gmap nat ndarray) l a :
  σ !! l = Some (FloatArr3 a) → load3 l σ = Some a.
Proof. unfold load3. by intros ->. Qed.

(** The loop of [loss_augment] on the store computes, in the array of
    [x_wide], what the loop on values computes. *)
Lemma loss_augment_loop_refines (r : Z) (h lu lx : nat) (hv : label_map)
    (up : weights) (l : list nat) (σ σ' : gmap nat ndarray) (a : unaries) :
  h ≠ lx → lu ≠ lx →
  σ !! h = Some (IntArr2 hv) → σ !! lu = Some (FloatArr1 up) →
  σ !! lx = Some (FloatArr3 a) →
  for_each (loss_augment_step_st r h lu lx) l σ = Some σ' →
  ∃ a', for_each (loss_augment_step r hv up) l a = Some a' ∧
        σ' !! lx = Some (FloatArr3 a').
Proof.
  intros Hh Hlu. revert σ a.
  induction l as [|s l IH]; intros σ a Hσh Hσu Hσx Hrun; simpl in *.
  - simplify_eq. by exists a.
  - unfold loss_augment_step_st in Hrun.
    rewrite (load2_Some _ _ _ Hσh), (load1_Some _ _ _ Hσu),
      (load3_Some _ _ _ Hσx) in Hrun.
    cbn [mbind option_bind] in Hrun.
    destruct (loss_augment_step r hv up a s) as [a1|]; [|done].
    cbn [mbind option_bind] in *.
    eapply IH; [| | |exact Hrun].
    + by rewrite lookup_insert_ne.
    + by rewrite lookup_insert_ne.
    + by rewrite lookup_insert_eq.
Qed.

(** [loss_augment] on the store returns a new array that holds the
    result of [loss_augment] on the values of its arguments. *)
Lemma loss_augment_st_refines (self : LatentCRF) (x h w : nat)
    (σ σ' : gmap nat ndarray) (xv : unaries) (hv : label_map)
    (wv : weights) (lx : nat) :
  σ !! x = Some (FloatArr3 xv) → σ !! h = Some (IntArr2 hv) →
  σ !! w = Some (FloatArr1 wv) →
  loss_augment_st self x h w σ = Some (lx, σ') →
  ∃ a, loss_augment self xv hv wv = Some a ∧
       σ' !! lx = Some (FloatArr3 a).
Proof.
  intros Hx Hh Hw Hrun. unfold loss_augment_st, loss_augment in *.
  rewrite (load3_Some _ x xv Hx) in Hrun.
  cbn [mbind option_bind] in *.
  destruct (np_repeat_last xv _) as [xw|]; [|done].
  cbn [mbind option_bind] in *.
  destruct (alloc (FloatArr3 xw) σ) as [l1 σ1] eqn:Ha.
  apply alloc_spec in Ha as [Hl1 ->].
  destruct (n_states_per_label self) as [r|]; [|done].
  destruct (n_states self) as [ns|]; [|done].
  assert (w ≠ l1) by (intros ->; congruence).
  assert (h ≠ l1) by (intros ->; congruence).
  rewrite (load1_Some _ w wv) in Hrun by (by rewrite lookup_insert_ne).
  cbn [mbind option_bind] in Hrun.
  destruct (alloc (FloatArr1 _) _) as [lu σ2] eqn:Ha.
  apply alloc_spec in Ha as [Hlu ->].
  assert (lu ≠ l1) by (intros ->; by rewrite lookup_insert_eq in Hlu).
  assert (h ≠ lu).
  { intros ->. rewrite lookup_insert_ne in Hlu by done. congruence. }
  rewrite (load1_Some _ lu (py_slice_to ns wv)) in Hrun
    by (by rewrite lookup_insert_eq).
  cbn [mbind option_bind] in Hrun.
  match type of Hrun with context [for_each ?b ?l ?st] =>
    destruct (for_each b l st) as [σ4|] eqn:Hloop end; [|done].
  cbn [mbind option_bind] in Hrun. simplify_eq.
  eapply (loss_augment_loop_refines r h lu lx hv _ _ _ _ xw);
    [done|done| | | |exact Hloop].
  - by rewrite !lookup_insert_ne by done.
  - by rewrite lookup_insert_eq.
  - rewrite !lookup_insert_ne by done. by rewrite lookup_insert_eq.
Qed.

(** * Further properties *)

(** ** [loss] as a distance on label maps *)

Lemma hamming_collapsed_bounds (r : Z) (H W : nat) (h h_hat : label_map) :
  0 ≤ hamming_collapsed r H W h h_hat ≤ Z.of_nat H * Z.of_nat W.
Proof.
  unfold hamming_collapsed. split; [lia|].
  rewrite <-Nat2Z.inj_mul. apply Nat2Z.inj_le.
  match goal with |- (sum_list_with ?f _ ≤ _)%nat =>
    assert (∀ l, (sum_list_with f l ≤ length l * W)%nat) as Hsum end.
  { induction l as [|i l IH]; simpl; [lia|].
    match goal with |- (length (filter ?P ?k) + _ ≤ _)%nat =>
      pose proof (length_filter P k) as Hf end.
    rewrite length_seq in Hf. lia. }
  specialize (Hsum (seq 0 H)). by rewrite length_seq in Hsum.
Qed.

Lemma length_filter_triangle {A} (P Q R : A → Prop)
    `{!∀ x, Decision (P x), !∀ x, Decision (Q x), !∀ x, Decision (R x)}
    (l : list A) :
  (∀ x, P x → Q x ∨ R x) →
  (length (filter P l) ≤ length (filter Q l) + length (filter R l))%nat.
Proof.
  intros HPQR. induction l as [|x l IH]; simpl; [lia|].
  rewrite !filter_cons.
  destruct (decide (P x)) as [HP|HP], (decide (Q x)) as [HQ|HQ],
    (decide (R x)) as [HR|HR]; simpl; try lia.
  destruct (HPQR x HP); done.
Qed.

Lemma hamming_collapsed_triangle (r : Z) (H W : nat) (a b c : label_map) :
  hamming_collapsed r H W a c
  ≤ hamming_collapsed r H W a b + hamming_collapsed r H W b c.
Proof.
  unfold hamming_collapsed. rewrite <-Nat2Z.inj_add. apply Nat2Z.inj_le.
  generalize (seq 0 H). intros l.
  induction l as [|i l IH]; simpl; [lia|].
  match goal with
  | |- (length (filter ?P ?k) + _ ≤
        length (filter ?Q ?k) + _ + (length (filter ?R ?k) + _))%nat =>
      pose proof (length_filter_triangle P Q R k) as Hf
  end.
  simpl in Hf. etrans; [apply Nat.add_le_mono; [apply Hf|exact IH]|lia].
  intros j Hac. destruct (decide (label_at r a i j = label_at r b i j));
    [right; congruence|by left].
Qed.

Lemma np_sum_zero_any (m : list (list bool)) :
  np_sum m = 0 ↔ np_any2 m = false.
Proof.
  unfold np_sum, np_any2.
  assert (Hrow : ∀ t : list bool,
    length (filter (λ b, b = true) t) = 0%nat ↔ existsb id t = false).
  { induction t as [|b t IH]; [done|]. rewrite filter_cons.
    destruct b; simpl; [split; [lia|done]|done]. }
  induction m as [|t m IH]; csimpl; [done|].
  rewrite filter_app, length_app, orb_false_iff, <-IH, <-Hrow. lia.
Qed.

(** X1: for maps of the same [H] by [W] shape, [loss] returns a number
    between 0 and the number [H * W] of nodes. *)
Theorem loss_between_zero_and_size (self : LatentCRF) (r : Z) (H W : nat)
    (h h_hat : label_map) :
  n_states_per_label self = PyInt r →
  shape2 H W h → shape2 H W h_hat →
  ∃ n, loss self h h_hat = Some n ∧ 0 ≤ n ≤ Z.of_nat H * Z.of_nat W.
Proof.
  intros Hr Hh Hh'. unfold loss. rewrite Hr. simpl.
  destruct (not_equal_count r h h_hat H W Hh Hh') as (m & -> & Hm). simpl.
  eexists; split; [done|]. rewrite Hm. apply hamming_collapsed_bounds.
Qed.

Lemma loss_between_zero_and_size_witness :
  ∃ n, loss (LatentGridCRF_init 2 (PyInt 2) "qpbo")
            [[0; 1]; [2; 3]] [[1; 2]; [3; 0]] = Some n ∧
       0 ≤ n ≤ Z.of_nat 2 * Z.of_nat 2.
Proof.
  apply (loss_between_zero_and_size _ 2); [reflexivity|..];
    (split; [reflexivity|repeat constructor]).
Defined.

(** X2: for maps of the same shape, [loss] is 0 exactly when the two
    maps have the same owning label [state // r] at every node. *)
Theorem loss_zero_iff_same_labels (self : LatentCRF) (r : Z) (H W : nat)
    (h h_hat : label_map) :
  n_states_per_label self = PyInt r →
  shape2 H W h → shape2 H W h_hat →
  loss self h h_hat = Some 0 ↔
  map2d (λ v, v / r) h = map2d (λ v, v / r) h_hat.
Proof.
  intros Hr Hh Hh'. unfold loss. rewrite Hr. simpl.
  destruct (np_not_equal_total (map2d (λ v, v / r) h)
              (map2d (λ v, v / r) h_hat) H W) as [ne Hne];
    [by apply shape2_map2d..|].
  rewrite Hne. simpl. split.
  - intros [= Hz]. apply np_sum_zero_any in Hz.
    by eapply np_not_equal_any_false.
  - intros Heq. f_equal. apply np_sum_zero_any.
    destruct (np_any2 ne) eqn:Hany; [|done].
    rewrite Heq in Hne.
    destruct (np_not_equal_refl (map2d (λ v, v / r) h_hat))
      as (m & Hm & _ & Hf). congruence.
Qed.

Lemma loss_zero_iff_same_labels_witness :
  loss (LatentGridCRF_init 2 (PyInt 2) "qpbo") [[0; 3]] [[1; 2]] = Some 0 ↔
  map2d (λ v, v / 2) [[0; 3]] = map2d (λ v, v / 2) [[1; 2]].
Proof.
  apply (loss_zero_iff_same_labels _ 2 1 2); [reflexivity|..];
    (split; [reflexivity|repeat constructor]).
Defined.

(** X3: [loss] satisfies the triangle inequality on maps of the same
    shape. *)
Theorem loss_triangle_inequality (self : LatentCRF) (r : Z) (H W : nat)
    (a b c : label_map) :
  n_states_per_label self = PyInt r →
  shape2 H W a → shape2 H W b → shape2 H W c →
  ∃ nab nbc nac,
    loss self a b = Some nab ∧ loss self b c = Some nbc ∧
    loss self a c = Some nac ∧ nac ≤ nab + nbc.
Proof.
  intros Hr Ha Hb Hc. unfold loss. rewrite Hr. simpl.
  destruct (not_equal_count r a b H W Ha Hb) as (m1 & -> & Hm1).
  destruct (not_equal_count r b c H W Hb Hc) as (m2 & -> & Hm2).
  destruct (not_equal_count r a c H W Ha Hc) as (m3 & -> & Hm3). simpl.
  eexists _, _, _. repeat split. rewrite Hm1, Hm2, Hm3.
  apply hamming_collapsed_triangle.
Qed.

Lemma loss_triangle_inequality_witness :
  ∃ nab nbc nac,
    loss (LatentGridCRF_init 2 (PyInt 2) "qpbo") [[0; 3]] [[2; 2]] = Some nab ∧
    loss (LatentGridCRF_init 2 (PyInt 2) "qpbo") [[2; 2]] [[1; 0]] = Some nbc ∧
    loss (LatentGridCRF_init 2 (PyInt 2) "qpbo") [[0; 3]] [[1; 0]] = Some nac ∧
    nac ≤ nab + nbc.
Proof.
  apply (loss_triangle_inequality _ 2 1 2); [reflexivity|..];
    (split; [reflexivity|repeat constructor]).
Defined.

(** ** [latent]: what it returns *)

Lemma latent_Some_consistent
    (base_inference : LatentCRF → unaries → weights → label_map)
    (self : LatentCRF) (r nl : Z) (x : unaries) (y : label_map)
    (w : weights) (h : label_map) (out : list event) :
  n_states_per_label self = PyInt r → 0 < r → nl * r ≤ 2 ^ 63 →
  Forall (Forall (λ v, 0 ≤ v < nl)) y →
  latent base_inference self x y w = Some (h, out) →
  map2d (λ v, v / r) h = y.
Proof.
  intros Hr Hrpos Hfit Hlab Hrun. unfold latent in Hrun.
  destruct (latent_unaries self x y w) as [xw|]; [|done].
  rewrite Hr in Hrun. cbn [mbind option_bind np_floordiv np_mul] in Hrun.
  destruct (np_not_equal _ y) as [ne|] eqn:Hne; [|done].
  cbn [mbind option_bind] in Hrun.
  assert (map2d (λ v, v / r) (map2d (λ v, wrap64 (v * r)) y) = y) as Hfall.
  { rewrite map2d_compose. apply map2d_id_on.
    eapply Forall_impl; [exact Hlab|]. intros row Hrow.
    eapply Forall_impl; [exact Hrow|]. intros v Hv. simpl in *.
    assert (0 ≤ v * r) by (apply Z.mul_nonneg_nonneg; lia).
    assert (v * r < nl * r) by (apply Z.mul_lt_mono_pos_r; lia).
    rewrite wrap64_small by lia. by rewrite Z.div_mul by lia. }
  destruct (np_any2 ne) eqn:Hany.
  - destruct (np_any w); simplify_eq; done.
  - simplify_eq. by eapply np_not_equal_any_false.
Qed.

Lemma shape2_map2d_inv {A B} (f : A → B) (a : list (list A)) H W :
  shape2 H W (map2d f a) → shape2 H W a.
Proof.
  unfold map2d. intros [Hl Hr]. rewrite length_fmap in Hl.
  split; [done|]. apply Forall_fmap in Hr.
  eapply Forall_impl; [exact Hr|]. intros row Hrow. simpl in Hrow.
  by rewrite length_fmap in Hrow.
Qed.

Lemma map2d_div_1 (y : label_map) : map2d (λ v, v / 1) y = y.
Proof.
  apply map2d_id_on. apply Forall_forall. intros row _.
  apply Forall_forall. intros v _. apply Z.div_1_r.
Qed.

(** X4: the loss between the hidden maps that [latent] returns for two
    label maps [y1] and [y2] is the number of nodes at which [y1] and
    [y2] differ, whatever the inputs, the weights and the base
    inference. *)
Theorem loss_of_latent_results_is_label_distance
    (base_inference : LatentCRF → unaries → weights → label_map)
    (self : LatentCRF) (r nl : Z) (x1 x2 : unaries) (y1 y2 : label_map)
    (w1 w2 : weights) (h1 h2 : label_map) (o1 o2 : list event) (H W : nat) :
  n_states_per_label self = PyInt r → 0 < r → nl * r ≤ 2 ^ 63 →
  shape2 H W y1 → shape2 H W y2 →
  Forall (Forall (λ v, 0 ≤ v < nl)) y1 →
  Forall (Forall (λ v, 0 ≤ v < nl)) y2 →
  latent base_inference self x1 y1 w1 = Some (h1, o1) →
  latent base_inference self x2 y2 w2 = Some (h2, o2) →
  loss self h1 h2 = Some (hamming_collapsed 1 H W y1 y2).
Proof.
  intros Hr Hrpos Hfit Hy1 Hy2 Hl1 Hl2 Hrun1 Hrun2.
  pose proof (latent_Some_consistent _ _ _ _ _ _ _ _ _
                Hr Hrpos Hfit Hl1 Hrun1) as Hc1.
  pose proof (latent_Some_consistent _ _ _ _ _ _ _ _ _
                Hr Hrpos Hfit Hl2 Hrun2) as Hc2.
  unfold loss. rewrite Hr. simpl. rewrite Hc1, Hc2.
  destruct (not_equal_count 1 y1 y2 H W Hy1 Hy2) as (m & Hm & Hs).
  rewrite !map2d_div_1 in Hm. rewrite Hm. simpl. by rewrite Hs.
Qed.

Lemma loss_of_latent_results_is_label_distance_witness :
  loss (LatentGridCRF_init 2 (PyInt 2) "qpbo") [[2; 0]] [[0; 2]]
  = Some (hamming_collapsed 1 1 2 [[1; 0]] [[0; 1]]).
Proof.
  apply (loss_of_latent_results_is_label_distance
           (λ _ _ _, [[0; 0]]) _ 2 2
           [[[1; 2]; [1; 2]]]%float [[[1; 2]; [1; 2]]]%float _ _
           [0; 2; -4; 0.5; 7]%float (replicate 14 0%float) _ _
           [Print "inconsistent h and y"; TracerCall] []);
    try reflexivity; try lia;
    try (split; [reflexivity|repeat constructor]).
  all: repeat first [apply List.Forall_nil|apply List.Forall_cons]; lia.
Defined.

(** X5: when the hidden map that the base inference computes is
    consistent with [y], [latent] returns that very map and reports
    nothing, for every [w]. *)
Theorem latent_keeps_consistent_inference
    (base_inference : LatentCRF → unaries → weights → label_map)
    (self : LatentCRF) (r : Z) (x : unaries) (y : label_map) (w : weights)
    (x_wide : unaries) :
  n_states_per_label self = PyInt r →
  latent_unaries self x y w = Some x_wide →
  map2d (λ v, v / r) (base_inference self x_wide w) = y →
  latent base_inference self x y w
    = Some (base_inference self x_wide w, []).
Proof.
  intros Hr Hxw Hc.
  destruct (np_not_equal_refl y) as (m & Hm & _ & Hany).
  rewrite <-Hc in Hm at 1.
  rewrite (latent_cases _ _ _ _ _ _ _ _ Hr Hxw Hm). by rewrite Hany.
Qed.

Lemma latent_keeps_consistent_inference_witness :
  latent (λ _ _ _, [[3]]) (LatentGridCRF_init 2 (PyInt 2) "qpbo")
         [[[1; 2]]]%float [[1]] [0; 2; -4; 0.5; 7]%float
    = Some ([[3]], []).
Proof.
  apply (latent_keeps_consistent_inference (λ _ _ _, [[3]])
           (LatentGridCRF_init 2 (PyInt 2) "qpbo") 2
           [[[1; 2]]]%float [[1]] [0; 2; -4; 0.5; 7]%float
           [[[-0; -1000; 2; 2]]]%float); reflexivity.
Defined.

(** X6: every entry of the hidden map that [latent] returns is a state
    of the model: it lies in [0, n_labels * r). *)
Theorem latent_result_in_state_range
    (base_inference : LatentCRF → unaries → weights → label_map)
    (self : LatentCRF) (r nl : Z) (x : unaries) (y : label_map)
    (w : weights) (h : label_map) (out : list event) :
  n_states_per_label self = PyInt r → 0 < r → nl * r ≤ 2 ^ 63 →
  Forall (Forall (λ v, 0 ≤ v < nl)) y →
  latent base_inference self x y w = Some (h, out) →
  Forall (Forall (λ v, 0 ≤ v < nl * r)) h.
Proof.
  intros Hr Hrpos Hfit Hlab Hrun.
  pose proof (latent_Some_consistent _ _ _ _ _ _ _ _ _
                Hr Hrpos Hfit Hlab Hrun) as Hc.
  apply Forall_lookup. intros i row Hrow.
  apply Forall_lookup. intros j v Hv.
  assert (get2 y i j = Some (v / r)) as Hy.
  { rewrite <-Hc, get2_map2d. unfold get2. rewrite Hrow. simpl.
    by rewrite Hv. }
  unfold get2 in Hy. destruct (y !! i) as [yrow|] eqn:Hyrow; [|done].
  simpl in Hy.
  pose proof (Forall_lookup_1 _ _ _ _
                (Forall_lookup_1 _ _ _ _ Hlab Hyrow) Hy) as Hrange.
  simpl in Hrange.
  pose proof (Z.div_mod v r ltac:(lia)) as Hdm.
  pose proof (Z.mod_pos_bound v r Hrpos) as Hmod. nia.
Qed.

Lemma latent_result_in_state_range_witness :
  Forall (Forall (λ v, 0 ≤ v < 2 * 2)) [[2]].
Proof.
  apply (latent_result_in_state_range (λ _ _ _, [[0]])
           (LatentGridCRF_init 2 (PyInt 2) "qpbo") 2 2
           [[[1; 2]]]%float [[1]] [0; 2; -4; 0.5; 7]%float [[2]]
           [Print "inconsistent h and y"; TracerCall]);
    try reflexivity; try lia.
  repeat constructor; lia.
Defined.

(** ** [loss_augment]: short weight vectors and the store *)

Lemma for_each_fails {S} (body : S → nat → option S) (l : list nat)
    (s : nat) (st : S) :
  s ∈ l → (∀ st', body st' s = None) → for_each body l st = None.
Proof.
  intros Hs Hfail. revert st.
  induction l as [|s0 l IH]; intros st; [by apply elem_of_nil in Hs|].
  simpl. apply elem_of_cons in Hs as [->|Hs]; [by rewrite Hfail|].
  destruct (body st s0); simpl; [by apply IH|done].
Qed.

(** X7: [loss_augment] raises when [w] has fewer entries than the
    model has states: the loop reaches a state [s] for which
    [unary_params[s]] is out of bounds. *)
Theorem loss_augment_short_weights_raise (self : LatentCRF) (r ns : Z)
    (x : unaries) (h : label_map) (w : weights) :
  n_states_per_label self = PyInt r → n_states self = PyInt ns →
  (length w < Z.to_nat ns)%nat →
  loss_augment self x h w = None.
Proof.
  intros Hr Hns Hw. unfold loss_augment. rewrite Hr, Hns.
  destruct (np_repeat_last x (PyInt r)) as [xw|]; [|done]. simpl.
  apply (for_each_fails _ _ (length w)).
  - apply elem_of_seq. lia.
  - intros xw'. unfold loss_augment_step.
    rewrite (lookup_ge_None_2 (guard_zero _)); [done|].
    unfold guard_zero, py_slice_to. rewrite length_fmap.
    rewrite decide_False by lia. rewrite length_take. lia.
Qed.

Lemma loss_augment_short_weights_raise_witness :
  loss_augment (LatentGridCRF_init 2 (PyInt 2) "qpbo")
               [[[1; 2]]]%float [[3]] [0; 2; 4]%float = None.
Proof.
  apply (loss_augment_short_weights_raise _ 2 4); [reflexivity..|].
  simpl. lia.
Defined.

Lemma loss_augment_loop_simulates (r : Z) (h lu lx : nat) (hv : label_map)
    (up : weights) (l : list nat) (σ : gmap nat ndarray) (a a' : unaries) :
  h ≠ lx → lu ≠ lx →
  σ !! h = Some (IntArr2 hv) → σ !! lu = Some (FloatArr1 up) →
  σ !! lx = Some (FloatArr3 a) →
  for_each (loss_augment_step r hv up) l a = Some a' →
  ∃ σ', for_each (loss_augment_step_st r h lu lx) l σ = Some σ'.
Proof.
  intros Hh Hlu. revert σ a.
  induction l as [|s l IH]; intros σ a Hσh Hσu Hσx Hrun; simpl in *.
  - by eexists.
  - unfold loss_augment_step_st.
    rewrite (load2_Some _ _ _ Hσh), (load1_Some _ _ _ Hσu),
      (load3_Some _ _ _ Hσx).
    cbn [mbind option_bind].
    destruct (loss_augment_step r hv up a s) as [a1|]; [|done].
    cbn [mbind option_bind] in *.
    eapply IH; [| | |exact Hrun].
    + by rewrite lookup_insert_ne.
    + by rewrite lookup_insert_ne.
    + by rewrite lookup_insert_eq.
Qed.

(** X8: called on arrays of the store, [loss_augment] succeeds exactly
    when it succeeds on their values; it then returns a reference that
    did not exist before the call (so the result shares nothing with
    [x], [h] or [w]), this new array holds the result computed on the
    values, and every array that existed before is unchanged. *)
Theorem loss_augment_returns_fresh_array (self : LatentCRF) (x h w : nat)
    (σ : gmap nat ndarray) (xv : unaries) (hv : label_map) (wv : weights) :
  σ !! x = Some (FloatArr3 xv) → σ !! h = Some (IntArr2 hv) →
  σ !! w = Some (FloatArr1 wv) →
  (∀ a, loss_augment self xv hv wv = Some a →
        ∃ lx σ', loss_augment_st self x h w σ = Some (lx, σ')) ∧
  (∀ lx σ', loss_augment_st self x h w σ = Some (lx, σ') →
            σ !! lx = None ∧ σ ⊆ σ' ∧
            ∃ a, loss_augment self xv hv wv = Some a ∧
                 σ' !! lx = Some (FloatArr3 a)).
Proof.
  intros Hx Hh Hw. split.
  - intros a Ha. unfold loss_augment_st, loss_augment in *.
    rewrite (load3_Some _ x xv Hx). cbn [mbind option_bind] in *.
    destruct (np_repeat_last xv _) as [xw|]; [|done].
    cbn [mbind option_bind] in *.
    destruct (alloc (FloatArr3 xw) σ) as [l1 σ1] eqn:Hal.
    apply alloc_spec in Hal as [Hl1 ->].
    destruct (n_states_per_label self) as [r|]; [|done].
    destruct (n_states self) as [ns|]; [|done].
    assert (w ≠ l1) by (intros ->; congruence).
    assert (h ≠ l1) by (intros ->; congruence).
    rewrite (load1_Some _ w wv) by (by rewrite lookup_insert_ne).
    cbn [mbind option_bind].
    destruct (alloc (FloatArr1 _) _) as [lu σ2] eqn:Hal.
    apply alloc_spec in Hal as [Hlu ->].
    assert (lu ≠ l1) by (intros ->; by rewrite lookup_insert_eq in Hlu).
    assert (h ≠ lu).
    { intros ->. rewrite lookup_insert_ne in Hlu by done. congruence. }
    rewrite (load1_Some _ lu (py_slice_to ns wv))
      by (by rewrite lookup_insert_eq).
    cbn [mbind option_bind].
    edestruct (loss_augment_loop_simulates r h lu l1 hv) as [σ4 ->];
      [done|done| | | |exact Ha|by eexists _, _].
    + by rewrite !lookup_insert_ne by done.
    + by rewrite lookup_insert_eq.
    + rewrite !lookup_insert_ne by done. by rewrite lookup_insert_eq.
  - intros lx σ' Hrun.
    destruct (loss_augment_st_frame _ _ _ _ _ _ _ Hrun) as [Hfresh Hframe].
    split; [done|]. split; [by apply map_subseteq_spec|].
    by eapply loss_augment_st_refines.
Qed.

Lemma loss_augment_returns_fresh_array_witness :
  let σ : gmap nat ndarray :=
    <[0%nat := FloatArr3 [[[1; 2]]]%float]>
      (<[1%nat := FloatArr1 [0; 2; 4; 0.5; 7]%float]>
         (<[2%nat := IntArr2 [[3]]]> ∅)) in
  let self := LatentGridCRF_init 2 (PyInt 2) "qpbo" in
  (∀ a, loss_augment self [[[1; 2]]]%float [[3]] [0; 2; 4; 0.5; 7]%float
          = Some a →
        ∃ lx σ', loss_augment_st self 0 2 1 σ = Some (lx, σ')) ∧
  (∀ lx σ', loss_augment_st self 0 2 1 σ = Some (lx, σ') →
            σ !! lx = None ∧ σ ⊆ σ' ∧
            ∃ a, loss_augment self [[[1; 2]]]%float [[3]]
                   [0; 2; 4; 0.5; 7]%float = Some a ∧
                 σ' !! lx = Some (FloatArr3 a)).
Proof.
  intros σ self.
  apply (loss_augment_returns_fresh_array self 0 2 1 σ); reflexivity.
Defined.

(** ** The perturbed initialisation of the tests *)

Lemma zipM_fmap_eq {A B C D} (k : A → B → option C) (φ : C → D) (ψ : B → D)
    (mask : list A) (a : list B) (c : list C) :
  zipM k mask a = Some c →
  (∀ i m u z, mask !! i = Some m → a !! i = Some u → k m u = Some z →
              φ z = ψ u) →
  φ <$> c = ψ <$> a.
Proof.
  revert a c. induction mask as [|m mask IH]; intros [|u a] c Hz Hk;
    simpl in Hz; simplify_option_eq; [done|]. csimpl. f_equal.
  - by apply (Hk 0%nat m u).
  - apply IH; [done|]. intros i. apply (Hk (S i)).
Qed.

(** X9: the perturbation that [test_with_crosses_bad_init] applies to
    the initial hidden states keeps the label [state // 2] of every
    node, for every mask: a consistent [H_init] stays consistent. *)
Theorem round_masked_states_keeps_labels (mask : list (list (list bool)))
    (H_init R : list label_map) :
  Forall (Forall (Forall (λ v, - 2 ^ 63 ≤ v < 2 ^ 63))) H_init →
  round_masked_states mask H_init = Some R →
  map2d (λ v, v / 2) <$> R = map2d (λ v, v / 2) <$> H_init.
Proof.
  intros Hrange Hrun. unfold round_masked_states in Hrun.
  eapply zipM_fmap_eq; [exact Hrun|].
  intros i1 m1 h1 z1 _ Hh1 Hz1. unfold map2d.
  eapply zipM_fmap_eq; [exact Hz1|].
  intros i2 m2 h2 z2 _ Hh2 Hz2.
  eapply zipM_fmap_eq; [exact Hz2|].
  intros i3 m v z _ Hv Hz. simpl in Hz. simplify_eq.
  destruct m; [|done].
  pose proof (Forall_lookup_1 _ _ _ _
    (Forall_lookup_1 _ _ _ _
       (Forall_lookup_1 _ _ _ _ Hrange Hh1) Hh2) Hv) as Hr.
  simpl in Hr.
  pose proof (Z.div_mod v 2 ltac:(lia)) as Hdm.
  pose proof (Z.mod_pos_bound v 2 ltac:(lia)) as Hmod.
  rewrite wrap64_small by lia.
  by rewrite Z.mul_comm, Z.div_mul by lia.
Qed.

Lemma round_masked_states_keeps_labels_witness :
  map2d (λ v, v / 2) <$> [[[0; 2]; [2; 1]]]
  = map2d (λ v, v / 2) <$> [[[1; 2]; [3; 1]]].
Proof.
  apply (round_masked_states_keeps_labels
           [[[true; false]; [true; false]]]);
    [|reflexivity].
  repeat first [apply List.Forall_nil|apply List.Forall_cons]; lia.
Defined.

(** ** [kmeans_init] and [init_latent] *)

Lemma assign_masked_spec (indicator : list bool) (values H H' : list Z) :
  assign_masked indicator values H = Some H' →
  length H' = length H ∧ length indicator = length H ∧
  ∀ p, (indicator !! p = Some false → H' !! p = H !! p) ∧
       (indicator !! p = Some true → ∃ v, v ∈ values ∧ H' !! p = Some v).
Proof.
  revert values H H'.
  induction indicator as [|t indicator IH]; intros values H H' Hrun.
  - destruct H; [|done]. destruct values; [|done]. simpl in Hrun.
    simplify_eq. repeat split; done.
  - destruct H as [|h H]; [by destruct t|]. destruct t.
    + destruct values as [|v values]; [done|]. simpl in Hrun.
      destruct (assign_masked indicator values H) as [H''|] eqn:Hrec;
        [|done].
      simpl in Hrun. simplify_eq.
      destruct (IH _ _ _ Hrec) as (Hl1 & Hl2 & Hp).
      split; [simpl; lia|]. split; [simpl; lia|].
      intros [|p]; simpl.
      * split; [done|]. intros _. exists v. split; [by left|done].
      * destruct (Hp p) as [Hf Ht]. split; [done|].
        intros Htrue. destruct (Ht Htrue) as (v' & Hin & Hv').
        exists v'. split; [by right|done].
    + simpl in Hrun.
      destruct (assign_masked indicator values H) as [H''|] eqn:Hrec;
        [|done].
      simpl in Hrun. simplify_eq.
      destruct (IH _ _ _ Hrec) as (Hl1 & Hl2 & Hp).
      split; [simpl; lia|]. split; [simpl; lia|].
      intros [|p]; simpl; [done|]. apply Hp.
Qed.

Lemma for_each_seq_invariant {S} (P : nat → S → Prop)
    (body : S → nat → option S) (n : nat) (st st' : S) :
  P 0%nat st →
  (∀ k st0 st1, (k < n)%nat → P k st0 → body st0 k = Some st1 →
                P (Datatypes.S k) st1) →
  for_each body (seq 0 n) st = Some st' → P n st'.
Proof.
  intros HP Hstep.
  assert (∀ m k st0, (k + m = n)%nat → P k st0 →
            for_each body (seq k m) st0 = Some st' → P n st') as Hgen.
  { induction m as [|m IH]; intros k st0 Hkm HPk Hrun; simpl in Hrun.
    - simplify_eq. by replace (k + 0)%nat with k by lia.
    - destruct (body st0 k) as [st1|] eqn:Hb; [|done]. simpl in Hrun.
      apply (IH (Datatypes.S k) st1); [lia| |done].
      apply (Hstep k st0); [lia|done..]. }
  apply (Hgen n 0%nat st); [lia|done].
Qed.

Lemma chunk_like_join {A} (a : list (list A)) : chunk_like a (mjoin a) = a.
Proof.
  induction a as [|row a IH]; csimpl; [done|].
  by rewrite take_app_length, drop_app_length, IH.
Qed.

Lemma chunk_like_fmap {A B C} (f : B → C) (shape : list (list A))
    (flat : list B) :
  chunk_like shape (f <$> flat) = map2d f (chunk_like shape flat).
Proof.
  unfold map2d. revert flat.
  induction shape as [|row shape IH]; intros flat; csimpl; [done|].
  by rewrite <-fmap_take, <-fmap_drop, IH.
Qed.

Lemma reshape_like_ravel (Y : list label_map) : reshape_like Y (ravel Y) = Y.
Proof.
  unfold reshape_like, ravel. rewrite chunk_like_join.
  induction Y as [|y Y IH]; csimpl; [done|].
  by rewrite chunk_like_join, IH.
Qed.

Lemma reshape_like_fmap (f : Z → Z) (Y : list label_map) (flat : list Z) :
  reshape_like Y (f <$> flat) = map2d f <$> reshape_like Y flat.
Proof.
  unfold reshape_like. rewrite chunk_like_fmap. unfold map2d at 1.
  generalize (chunk_like (mjoin (M:=list) <$> Y) flat). intros chunks.
  revert chunks. induction Y as [|y Y IH]; intros [|c chunks]; csimpl;
    try done.
  by rewrite chunk_like_fmap, IH.
Qed.

Lemma Forall_chunk_like {A B} (P : B → Prop) (shape : list (list A))
    (flat : list B) :
  Forall P flat → Forall (Forall P) (chunk_like shape flat).
Proof.
  revert flat. induction shape as [|row shape IH]; intros flat Hf; simpl;
    constructor; [by apply Forall_take|]. apply IH. by apply Forall_drop.
Qed.

Lemma Forall_reshape_like (P : Z → Prop) (Y : list label_map)
    (flat : list Z) :
  Forall P flat → Forall (Forall (Forall P)) (reshape_like Y flat).
Proof.
  intros Hf. unfold reshape_like.
  pose proof (Forall_chunk_like P (mjoin (M:=list) <$> Y) flat Hf) as Hc.
  revert Hc. generalize (chunk_like (mjoin (M:=list) <$> Y) flat).
  intros chunks Hc. revert chunks Hc.
  induction Y as [|y Y IH]; intros [|c chunks] Hc; simpl; try constructor.
  - apply Forall_chunk_like. by apply Forall_cons in Hc as [? _].
  - apply IH. by apply Forall_cons in Hc as [_ ?].
Qed.

Lemma kmeans_init_step_spec
    (fit_predict : nat → pyval → list (list float) → option (list Z))
    (Yflat : list Z) (feats : list (list float)) (r nl : Z)
    (H H' : list Z) (k : nat) :
  0 < r → nl * r ≤ 2 ^ 63 → Z.of_nat k < nl →
  (∀ k f states, fit_predict k (PyInt r) f = Some states →
                 Forall (λ s, 0 ≤ s < r) states) →
  kmeans_init_step fit_predict Yflat feats (PyInt r) H k = Some H' →
  length H' = length H ∧
  ∀ p v, Yflat !! p = Some v →
    (v = Z.of_nat k →
       ∃ hv, H' !! p = Some hv ∧ hv / r = v ∧ 0 ≤ hv < nl * r) ∧
    (v ≠ Z.of_nat k → H' !! p = H !! p).
Proof.
  intros Hr Hfit Hk Hkm Hrun. unfold kmeans_init_step in Hrun.
  destruct (select_rows _ feats) as [f|]; [|done].
  cbn [mbind option_bind] in Hrun.
  destruct (fit_predict k (PyInt r) f) as [states|] eqn:Hfp; [|done].
  cbn [mbind option_bind state_offsets] in Hrun.
  apply Hkm in Hfp.
  apply assign_masked_spec in Hrun as (Hl1 & Hl2 & Hp).
  split; [done|]. intros p v Hv.
  assert (((λ v, v =? Z.of_nat k) <$> Yflat) !! p = Some (v =? Z.of_nat k))
    as Hind by (by rewrite list_lookup_fmap, Hv).
  destruct (Hp p) as [Hfalse Htrue]. split.
  - intros ->. rewrite Z.eqb_refl in Hind.
    destruct (Htrue Hind) as (val & Hin & Hval).
    apply list_elem_of_fmap in Hin as (s & -> & Hs).
    rewrite Forall_forall in Hfp. specialize (Hfp s Hs). simpl in Hfp.
    assert (0 ≤ Z.of_nat k * r) by (apply Z.mul_nonneg_nonneg; lia).
    assert (Z.of_nat k * r + r ≤ nl * r) by nia.
    simpl in Hval.
    rewrite (wrap64_small (Z.of_nat k * r)) in Hval by lia.
    rewrite wrap64_small in Hval by lia.
    eexists; split; [done|]. split; [|lia].
    rewrite Z.div_add by lia. rewrite Z.div_small by lia. lia.
  - intros Hne. apply Hfalse. rewrite Hind. f_equal.
    by apply Z.eqb_neq.
Qed.

Lemma kmeans_init_loop_spec
    (fit_predict : nat → pyval → list (list float) → option (list Z))
    (Yflat : list Z) (feats : list (list float)) (r : Z) (n_labels : nat)
    (H : list Z) :
  0 < r → Z.of_nat n_labels * r ≤ 2 ^ 63 →
  Forall (λ v, 0 ≤ v < Z.of_nat n_labels) Yflat →
  (∀ k f states, fit_predict k (PyInt r) f = Some states →
                 Forall (λ s, 0 ≤ s < r) states) →
  for_each (kmeans_init_step fit_predict Yflat feats (PyInt r))
           (seq 0 n_labels) (replicate (length Yflat) 0) = Some H →
  (λ v, v / r) <$> H = Yflat ∧
  Forall (λ v, 0 ≤ v < Z.of_nat n_labels * r) H.
Proof.
  intros Hr Hfit Hlab Hkm Hrun.
  apply (for_each_seq_invariant
    (λ k (H : list Z),
       length H = length Yflat ∧
       ∀ p v, Yflat !! p = Some v →
         ∃ hv, H !! p = Some hv ∧
           (0 ≤ v < Z.of_nat k →
              hv / r = v ∧ 0 ≤ hv < Z.of_nat n_labels * r) ∧
           (¬ (0 ≤ v < Z.of_nat k) → hv = 0))) in Hrun.
  - destruct Hrun as [Hlen Hinv].
    assert (∀ p v, Yflat !! p = Some v →
              ∃ hv, H !! p = Some hv ∧ hv / r = v ∧
                    0 ≤ hv < Z.of_nat n_labels * r) as Hall.
    { intros p v Hv. destruct (Hinv p v Hv) as (hv & Hhv & Hin & _).
      exists hv. split; [done|]. apply Hin.
      exact (Forall_lookup_1 _ _ _ _ Hlab Hv). }
    split.
    + apply list_eq. intros p. rewrite list_lookup_fmap.
      destruct (Yflat !! p) as [v|] eqn:Hv.
      * destruct (Hall p v Hv) as (hv & -> & <- & _). done.
      * apply lookup_ge_None in Hv.
        rewrite (lookup_ge_None_2 H) by lia. done.
    + apply Forall_lookup. intros p hv Hhv.
      destruct (lookup_lt_is_Some_2 Yflat p) as [v Hv].
      { apply lookup_lt_Some in Hhv. lia. }
      destruct (Hall p v Hv) as (hv' & Hhv' & _ & Hrange). by simplify_eq.
  - split; [by rewrite length_replicate|]. intros p v Hv.
    exists 0. split; [|split; [lia|done]].
    apply lookup_replicate_2. by apply lookup_lt_Some in Hv.
  - intros k H0 H1 Hk [Hlen Hinv] Hstep.
    destruct (kmeans_init_step_spec fit_predict Yflat feats r
                (Z.of_nat n_labels) H0 H1 k) as [Hlen1 Hent];
      [done|done|lia|done|done|].
    split; [lia|]. intros p v Hv.
    destruct (Hinv p v Hv) as (hv & Hhv & Hin & Hout).
    destruct (Hent p v Hv) as [Heq Hne].
    destruct (decide (v = Z.of_nat k)) as [->|Hvk].
    + destruct (Heq eq_refl) as (hv1 & Hhv1 & Hdiv & Hrange).
      exists hv1. split; [done|]. split; [done|]. lia.
    + exists hv. split; [by rewrite (Hne Hvk)|]. split.
      * intros Hv'. apply Hin. lia.
      * intros Hv'. apply Hout. lia.
Qed.

Lemma kmeans_init_consistent
    (fit_predict : nat → pyval → list (list float) → option (list Z))
    (X : list unaries) (Y : list label_map) (edges : list (list (Z * Z)))
    (r : Z) (symmetric : bool) (x0 : unaries) (n_labels : nat)
    (H : list label_map) :
  X !! 0%nat = Some x0 → last_axis_length x0 = Some n_labels →
  0 < r → Z.of_nat n_labels * r ≤ 2 ^ 63 →
  Forall (Forall (Forall (λ v, 0 ≤ v < Z.of_nat n_labels))) Y →
  (∀ k f states, fit_predict k (PyInt r) f = Some states →
                 Forall (λ s, 0 ≤ s < r) states) →
  kmeans_init fit_predict X Y edges (PyInt r) symmetric = Some H →
  map2d (λ v, v / r) <$> H = Y ∧
  Forall (Forall (Forall (λ v, 0 ≤ v < Z.of_nat n_labels * r))) H.
Proof.
  intros Hx0 Hn Hr Hfit Hlab Hkm Hrun. unfold kmeans_init in Hrun.
  rewrite Hx0 in Hrun. cbn [mbind option_bind] in Hrun.
  rewrite Hn in Hrun. cbn [mbind option_bind] in Hrun.
  destruct (Y !! 0%nat) as [y0|]; [|done]. cbn [mbind option_bind] in Hrun.
  destruct (mapM _ (zip X Y)) as [feats|]; [|done].
  cbn [mbind option_bind] in Hrun.
  destruct (for_each _ _ _) as [Hflat|] eqn:Hloop; [|done].
  cbn [mbind option_bind] in Hrun. simplify_eq.
  assert (Forall (λ v, 0 ≤ v < Z.of_nat n_labels) (ravel Y)) as Hflab.
  { unfold ravel. apply Forall_join, Forall_fmap.
    eapply Forall_impl; [exact Hlab|]. intros y Hy. simpl.
    by apply Forall_join. }
  destruct (kmeans_init_loop_spec _ _ _ _ _ _ Hr Hfit Hflab Hkm Hloop)
    as [Hdiv Hrange].
  split; [|by apply Forall_reshape_like].
  by rewrite <-reshape_like_fmap, Hdiv, reshape_like_ravel.
Qed.

Lemma alternating_clusters_below_two (k : nat) (f : list (list float))
    (states : list Z) :
  Some (imap (λ i _, Z.of_nat i `mod` 2) f) = Some states →
  Forall (λ s, 0 ≤ s < 2) states.
Proof.
  intros [= <-]. apply Forall_lookup. intros i s Hs.
  rewrite list_lookup_imap in Hs.
  destruct (f !! i); simplify_eq/=.
  apply Z.mod_pos_bound. lia.
Qed.

(** X10: [init_latent] of both classes returns hidden states with
    [H // n_states_per_label == Y] at every node, in the range of the
    states, when the labels of [Y] lie below the number of unaries per
    node of [X[0]] and the clustering returns cluster indices below
    [n_states_per_label]. *)
Theorem init_latent_consistent_with_labels
    (fit_predict : nat → pyval → list (list float) → option (list Z))
    (make_grid_edges : LatentCRF → unaries → list (Z * Z))
    (make_grid_edges_lists : LatentCRF → unaries → list (list (Z * Z)))
    (self : LatentCRF) (r : Z) (X : list unaries) (Y : list label_map)
    (x0 : unaries) (n_labels : nat) (H : list label_map) :
  n_states_per_label self = PyInt r →
  X !! 0%nat = Some x0 → last_axis_length x0 = Some n_labels →
  0 < r → Z.of_nat n_labels * r ≤ 2 ^ 63 →
  Forall (Forall (Forall (λ v, 0 ≤ v < Z.of_nat n_labels))) Y →
  (∀ k f states, fit_predict k (PyInt r) f = Some states →
                 Forall (λ s, 0 ≤ s < r) states) →
  init_latent fit_predict make_grid_edges make_grid_edges_lists self X Y
    = Some H →
  map2d (λ v, v / r) <$> H = Y ∧
  Forall (Forall (Forall (λ v, 0 ≤ v < Z.of_nat n_labels * r))) H.
Proof.
  intros Hr Hx0 Hn Hrpos Hfit Hlab Hkm Hrun. unfold init_latent in Hrun.
  rewrite Hx0, Hr in Hrun. cbn [mbind option_bind] in Hrun.
  destruct (base self); by eapply kmeans_init_consistent.
Qed.

Lemma init_latent_consistent_with_labels_witness :
  map2d (λ v, v / 2) <$> [[[0; 2]; [3; 2]]] = [[[0; 1]; [1; 1]]] ∧
  Forall (Forall (Forall (λ v, 0 ≤ v < Z.of_nat 2 * 2))) [[[0; 2]; [3; 2]]].
Proof.
  apply (init_latent_consistent_with_labels
           (λ _ _ f, Some (imap (λ i _, Z.of_nat i `mod` 2) f))
           (λ _ _, [(0, 1); (2, 3); (0, 2); (1, 3)])
           (λ _ _, [[(0, 1); (2, 3)]; [(0, 2); (1, 3)]])
           (LatentDirectionalGridCRF_init 2 (PyInt 2) "lp") 2
           [[[[1; 2]; [1; 2]]; [[1; 2]; [1; 2]]]]%float
           [[[0; 1]; [1; 1]]]
           [[[1; 2]; [1; 2]]; [[1; 2]; [1; 2]]]%float 2);
    try reflexivity; try lia.
  - repeat first [apply List.Forall_nil|apply List.Forall_cons]; lia.
  - intros k f states. apply (alternating_clusters_below_two k).
Defined.

(** X11: [kmeans_init] raises when a label map it visits holds a value
    that is not an index into the unaries of a node, that is, outside
    [-n_labels, n_labels) for [n_labels = X[0].shape[-1]]. *)
Theorem kmeans_init_label_out_of_range_raises
    (fit_predict : nat → pyval → list (list float) → option (list Z))
    (X : list unaries) (Y : list label_map) (edges : list (list (Z * Z)))
    (nspl : pyval) (symmetric : bool) (x0 : unaries) (n_labels k : nat)
    (xk : unaries) (yk : label_map) (v : Z) :
  X !! 0%nat = Some x0 → last_axis_length x0 = Some n_labels →
  X !! k = Some xk → Y !! k = Some yk →
  v ∈ mjoin yk → ¬ (- Z.of_nat n_labels ≤ v < Z.of_nat n_labels) →
  kmeans_init fit_predict X Y edges nspl symmetric = None.
Proof.
  intros Hx0 Hn Hxk Hyk Hv Hout. unfold kmeans_init.
  rewrite Hx0. cbn [mbind option_bind]. rewrite Hn. cbn [mbind option_bind].
  destruct (Y !! 0%nat) as [y0|]; [|done]. cbn [mbind option_bind].
  rewrite mapM_None_2; [done|]. apply Exists_exists. exists (xk, yk). split.
  - apply (list_elem_of_lookup_2 _ k).
    by rewrite lookup_zip_with, Hxk, Hyk.
  - simpl. unfold neighbor_features.
    assert (label_indicators n_labels yk = None) as ->; [|done].
    apply mapM_None_2, Exists_exists. exists v.
    split; [done|]. simpl. unfold py_index.
    rewrite decide_False by lia. by rewrite decide_False by lia.
Qed.

Lemma kmeans_init_label_out_of_range_raises_witness :
  kmeans_init (λ _ _ f, Some (imap (λ i _, Z.of_nat i `mod` 2) f))
              [[[[1; 2]; [1; 2]]; [[1; 2]; [1; 2]]]]%float
              [[[0; 2]; [1; 1]]]
              [[(0, 1); (2, 3); (0, 2); (1, 3)]] (PyInt 2) true = None.
Proof.
  apply (kmeans_init_label_out_of_range_raises _ _ _ _ _ _
           [[[1; 2]; [1; 2]]; [[1; 2]; [1; 2]]]%float 2 0
           [[[1; 2]; [1; 2]]; [[1; 2]; [1; 2]]]%float [[0; 2]; [1; 1]] 2);
    try reflexivity; [|lia].
  simpl. set_solver.
Defined.

(** *** When [kmeans_init] returns *)

Lemma length_coo_matrix (size : nat) (e : list (Z * Z)) g :
  coo_matrix size e = Some g → length g = size.
Proof.
  unfold coo_matrix. case_decide; [|done]. intros [= <-].
  generalize (replicate size 0%float). intros row.
  rewrite <-(length_replicate size row) at 2.
  generalize (replicate size row). intros g0.
  clear. revert g0. induction e as [|ab e IH]; intros g0; simpl; [done|].
  by rewrite IH, length_alter.
Qed.

Lemma length_np_hstack (size : nat) (ms : list (list (list float))) F :
  np_hstack size ms = Some F →
  Forall (λ m, length m = size) ms → length F = size.
Proof.
  intros Hh Hms. assert (F = foldr (zip_with app) (replicate size []) ms)
    as -> by (destruct ms; by simplify_eq/=).
  clear Hh. induction Hms as [|m ms Hm _ IH]; simpl.
  - by rewrite length_replicate.
  - rewrite length_zip_with, IH, Hm. lia.
Qed.

Lemma neighbor_features_total (n_labels size : nat)
    (edges : list (list (Z * Z))) (symmetric : bool) (y : label_map) :
  Forall (λ v, 0 ≤ v < Z.of_nat n_labels) (mjoin y) →
  edges ≠ [] →
  Forall (Forall (λ ab, (0 ≤ ab.1 < Z.of_nat size) ∧
                        (0 ≤ ab.2 < Z.of_nat size))) edges →
  ∃ F, neighbor_features n_labels size edges symmetric y = Some F ∧
       length F = size.
Proof.
  intros Hlab Hne Hedges. unfold neighbor_features.
  destruct (mapM_is_Some_2
    (λ v, k ← py_index n_labels v;
          Some (<[k := 1]> (replicate n_labels 0))) (mjoin y))
    as [labels Hlabels].
  { eapply Forall_impl; [exact Hlab|]. intros v Hv. simpl.
    unfold py_index. rewrite decide_True by done. by eexists. }
  unfold label_indicators. rewrite Hlabels. cbn [mbind option_bind].
  destruct (mapM_is_Some_2 (coo_matrix size) edges) as [graphs Hgraphs].
  { eapply Forall_impl; [exact Hedges|]. intros e He. simpl.
    unfold coo_matrix. rewrite decide_True by done. by eexists. }
  rewrite Hgraphs. cbn [mbind option_bind].
  apply mapM_Some_1 in Hgraphs.
  assert (Forall (λ g, length g = size) graphs) as Hlen.
  { apply Forall_lookup. intros i g Hg.
    destruct (Forall2_lookup_r _ _ _ _ _ Hgraphs Hg) as (e & _ & Hc).
    by eapply length_coo_matrix. }
  assert (graphs ≠ []) as Hgne.
  { intros ->. apply Forall2_nil_inv_r in Hgraphs. done. }
  match goal with |- ∃ _, np_hstack _ (_ <$> ?d) ≫= _ = _ ∧ _ =>
    assert (d ≠ [] ∧ Forall (λ s, length s = size) d) as [Hdne Hdlen] end.
  { destruct symmetric.
    - split; [by destruct graphs|]. apply Forall_fmap.
      eapply Forall_impl; [exact Hlen|]. intros g Hg. simpl in *.
      unfold matrix_add, transpose.
      rewrite length_zip_with, length_fmap, length_seq. lia.
    - split; [by destruct graphs|].
      clear Hgraphs Hgne. induction Hlen as [|g graphs Hg _ IH]; csimpl;
        [done|].
      constructor; [done|]. constructor; [|done].
      unfold transpose. by rewrite length_fmap, length_seq. }
  match goal with |- ∃ _, np_hstack _ ?ms ≫= _ = _ ∧ _ =>
    destruct (np_hstack size ms) as [F|] eqn:HF end.
  - cbn [mbind option_bind]. eexists; split; [done|].
    unfold normalize_rows. rewrite length_fmap.
    eapply length_np_hstack; [exact HF|]. apply Forall_fmap.
    eapply Forall_impl; [exact Hdlen|]. intros s Hs. simpl.
    unfold matrix_product. by rewrite length_fmap.
  - exfalso. unfold np_hstack in HF.
    match type of HF with context [_ <$> ?d] => destruct d end; done.
Qed.

Lemma select_rows_total {A} (indicator : list bool) (a : list A) :
  length indicator = length a →
  ∃ f, select_rows indicator a = Some f ∧
       length f = length (filter (λ t, t = true) indicator).
Proof.
  unfold select_rows. revert a.
  induction indicator as [|t indicator IH]; intros [|row a] Hl;
    simplify_eq/=; [by eexists|].
  destruct (IH a) as (f & Hf & Hlen); [lia|].
  destruct (zipM _ indicator a) as [rows|]; [|done]. simplify_eq/=.
  eexists; split; [done|]. rewrite filter_cons.
  destruct t; simpl; by rewrite ?Hlen.
Qed.

Lemma assign_masked_total (indicator : list bool) (values H : list Z) :
  length indicator = length H →
  length values = length (filter (λ t, t = true) indicator) →
  is_Some (assign_masked indicator values H).
Proof.
  revert values H.
  induction indicator as [|t indicator IH]; intros values [|h H] Hl Hv;
    simplify_eq/=.
  - by destruct values.
  - rewrite filter_cons in Hv. destruct t; simpl in Hv.
    + destruct values as [|v values]; [done|]. simpl in Hv.
      destruct (IH values H) as [H' ->]; [lia..|]. by eexists.
    + destruct (IH values H) as [H' ->]; [lia..|]. by eexists.
Qed.

Lemma for_each_total {S} (P : S → Prop) (body : S → nat → option S)
    (l : list nat) (st : S) :
  P st →
  (∀ st0 k, k ∈ l → P st0 → ∃ st1, body st0 k = Some st1 ∧ P st1) →
  is_Some (for_each body l st).
Proof.
  revert st. induction l as [|k l IH]; intros st HP Hstep; simpl;
    [by eexists|].
  destruct (Hstep st k) as (st1 & -> & HP1); [by left|done|]. simpl.
  apply IH; [done|]. intros st0 k' Hk'. apply Hstep. by right.
Qed.

Lemma length_join_uniform {A} (ls : list (list A)) (n : nat) :
  Forall (λ l, length l = n) ls → length (mjoin ls) = (length ls * n)%nat.
Proof.
  induction 1 as [|l ls Hl _ IH]; csimpl; [done|].
  rewrite length_app, IH, Hl. lia.
Qed.

(** X12: on well-formed arguments [kmeans_init] returns: [Y] an array
    of label maps with labels in [0, n_labels) and an input for each of
    them, at least one array of edges, all between nodes of the grid,
    and a clustering that returns one cluster index below
    [n_states_per_label] per row it is given.  The hidden states
    returned have [H // n_states_per_label == Y] at every node. *)
Theorem kmeans_init_returns_consistent_states
    (fit_predict : nat → pyval → list (list float) → option (list Z))
    (X : list unaries) (Y : list label_map) (edges : list (list (Z * Z)))
    (r : Z) (symmetric : bool) (x0 : unaries) (y0 : label_map)
    (n_labels : nat) :
  X !! 0%nat = Some x0 → last_axis_length x0 = Some n_labels →
  Y !! 0%nat = Some y0 →
  Forall (λ y, length (mjoin y) = length (mjoin y0)) Y →
  (length Y ≤ length X)%nat →
  Forall (Forall (Forall (λ v, 0 ≤ v < Z.of_nat n_labels))) Y →
  0 < r → Z.of_nat n_labels * r ≤ 2 ^ 63 →
  edges ≠ [] →
  Forall (Forall (λ ab, (0 ≤ ab.1 < Z.of_nat (length (mjoin y0))) ∧
                        (0 ≤ ab.2 < Z.of_nat (length (mjoin y0))))) edges →
  (∀ k f, ∃ states, fit_predict k (PyInt r) f = Some states ∧
                    length states = length f ∧
                    Forall (λ s, 0 ≤ s < r) states) →
  ∃ H, kmeans_init fit_predict X Y edges (PyInt r) symmetric = Some H ∧
       map2d (λ v, v / r) <$> H = Y ∧
       Forall (Forall (Forall (λ v, 0 ≤ v < Z.of_nat n_labels * r))) H.
Proof.
  intros Hx0 Hn Hy0 Huni HXY Hlab Hr Hfit Hene Hedges Hkm.
  assert (is_Some (kmeans_init fit_predict X Y edges (PyInt r) symmetric))
    as [H HH].
  { unfold kmeans_init.
    rewrite Hx0. cbn [mbind option_bind]. rewrite Hn, Hy0.
    cbn [mbind option_bind fmap option_fmap option_map].
    set (size := length (mjoin y0)) in *.
    assert (∀ xy, xy ∈ zip X Y →
      ∃ F, neighbor_features n_labels size edges symmetric xy.2 = Some F ∧
           length F = size) as Hfeat.
    { intros [x y] Hin. apply list_elem_of_lookup in Hin as [i Hi].
      rewrite lookup_zip_with in Hi.
      destruct (X !! i); [|done]. simpl in Hi.
      destruct (Y !! i) as [y'|] eqn:Hy; [|done]. simplify_eq/=.
      apply neighbor_features_total; [|done..].
      apply Forall_join. exact (Forall_lookup_1 _ _ _ _ Hlab Hy). }
    destruct (mapM_is_Some_2
      (λ xy, neighbor_features n_labels size edges symmetric xy.2)
      (zip X Y)) as [feats Hfeats].
    { apply Forall_forall. intros xy Hin.
      destruct (Hfeat xy Hin) as (F & HF & _). simpl. by eexists. }
    rewrite Hfeats. cbn [mbind option_bind].
    assert (length (mjoin feats) = length (ravel Y)) as Hlen.
    { apply mapM_Some_1 in Hfeats.
      rewrite (length_join_uniform feats size).
      - unfold ravel. rewrite (length_join_uniform _ size).
        + rewrite length_fmap, <-(Forall2_length _ _ _ Hfeats).
          rewrite length_zip_with. lia.
        + apply Forall_fmap. exact Huni.
      - apply Forall_lookup. intros i F HF.
        destruct (Forall2_lookup_r _ _ _ _ _ Hfeats HF) as (xy & Hxy & Hc).
        destruct (Hfeat xy (list_elem_of_lookup_2 _ _ _ Hxy))
          as (F' & HF' & Hl).
        simpl in Hc. by simplify_eq. }
    match goal with |- is_Some (?loop ≫= _) =>
      assert (is_Some loop) as [Hflat ->]; [|by eexists] end.
    apply (for_each_total (λ H : list Z, length H = length (ravel Y))).
    { by rewrite length_replicate. }
    intros H k _ HlenH. unfold kmeans_init_step.
    destruct (select_rows_total ((λ v, v =? Z.of_nat k) <$> ravel Y)
                (mjoin feats)) as (f & -> & Hf).
    { by rewrite length_fmap. }
    cbn [mbind option_bind].
    destruct (Hkm k f) as (states & -> & Hls & _).
    cbn [mbind option_bind state_offsets].
    match goal with |- ∃ _, assign_masked ?i ?v H = _ ∧ _ =>
      destruct (assign_masked_total i v H) as [H' HH'] end.
    { by rewrite length_fmap. }
    { rewrite length_fmap. lia. }
    exists H'. split; [done|].
    apply assign_masked_spec in HH' as (-> & _ & _). done. }
  exists H. split; [done|].
  eapply (kmeans_init_consistent fit_predict X Y edges r symmetric x0);
    [done..| |done].
  intros k f states Hs. destruct (Hkm k f) as (s' & Hs' & _ & Hrange).
  by simplify_eq.
Qed.

Lemma alternating_clusters_contract (k : nat) (f : list (list float)) :
  ∃ states, Some (imap (λ i _, Z.of_nat i `mod` 2) f) = Some states ∧
            length states = length f ∧ Forall (λ s, 0 ≤ s < 2) states.
Proof.
  eexists; split; [done|]. split; [by rewrite length_imap|].
  by apply (alternating_clusters_below_two k f).
Qed.

Lemma kmeans_init_returns_consistent_states_witness :
  ∃ H, kmeans_init (λ _ _ f, Some (imap (λ i _, Z.of_nat i `mod` 2) f))
         [[[[1; 2]; [1; 2]]; [[1; 2]; [1; 2]]]]%float [[[0; 1]; [1; 1]]]
         [[(0, 1); (2, 3); (0, 2); (1, 3)]] (PyInt 2) true = Some H ∧
       map2d (λ v, v / 2) <$> H = [[[0; 1]; [1; 1]]] ∧
       Forall (Forall (Forall (λ v, 0 ≤ v < Z.of_nat 2 * 2))) H.
Proof.
  apply (kmeans_init_returns_consistent_states _ _ _ _ 2 true
           [[[1; 2]; [1; 2]]; [[1; 2]; [1; 2]]]%float [[0; 1]; [1; 1]] 2);
    try reflexivity; try done; try (simpl; lia).
  - repeat first [apply List.Forall_nil|apply List.Forall_cons]; reflexivity.
  - repeat first [apply List.Forall_nil|apply List.Forall_cons]; lia.
  - repeat first [apply List.Forall_nil|apply List.Forall_cons];
      simpl; lia.
  - intros k f. apply (alternating_clusters_contract k).
Defined.
